(** * evlogger: the acquisition-to-storage pipeline of [logger.c]

    A shallow embedding of the ring buffer ([rb_getused_m], [rb_getfree_m],
    [ringbuf_write], [ringbuf_read]), of the storage supervisor ([sd_setup],
    [sd_write]) and of the interrupt handlers ([TIMER1_A0_ISR], [PORT1_ISR])
    of the EV data logger, with the properties of its design document.

    Conventions.
    - The target is an MSP430: [int] is 16 bits wide, so arithmetic on
      [uint16_t] operands is carried out modulo 2^16 ([u16]) and arithmetic on
      the [uint32_t] tick counter modulo 2^32 ([u32]).
    - A C array is a [list byte]; a pointer into it is the list with an
      offset.  [memcpy] outside the bounds of either array is undefined in C
      and is [None] here, so every function that copies returns an [option].
    - Calls into the FatFs driver, the display and the UART are recorded as
      [io] events; what the driver answers is supplied by the caller of the
      model as lists of result codes. *)

From Stdlib Require Import ZArith Lia.
From Stdlib.Strings Require Import Byte.
From stdpp Require Import base option list.

Open Scope Z_scope.

(** ** Machine integers *)

Definition u16 (x : Z) : Z := x mod 65536.
Definition u32 (x : Z) : Z := x mod 4294967296.

Abbreviation byte := Byte.byte.

(** ** The ring buffer *)

(** Modelled from the spec: [typedefs.h], which declares [struct RingBuffer],
    is not part of the sources.  The fields are the ones [logger.c] uses
    ([buffer], [head], [tail], [len], [mask], [overflow]); the cursors and the
    length are taken to be [uint16_t], the type [logger.c] gives to every
    byte count ([n], [rem]) it adds to them. *)
Record RingBuffer : Type := mkRingBuffer {
  buffer : list byte;
  head : Z;
  tail : Z;
  len : Z;
  mask : Z;
  overflow : Z
}.

Definition set_buffer (l : list byte) (b : RingBuffer) : RingBuffer :=
  mkRingBuffer l (head b) (tail b) (len b) (mask b) (overflow b).
Definition set_head (h : Z) (b : RingBuffer) : RingBuffer :=
  mkRingBuffer (buffer b) h (tail b) (len b) (mask b) (overflow b).
Definition set_tail (t : Z) (b : RingBuffer) : RingBuffer :=
  mkRingBuffer (buffer b) (head b) t (len b) (mask b) (overflow b).
Definition set_overflow (o : Z) (b : RingBuffer) : RingBuffer :=
  mkRingBuffer (buffer b) (head b) (tail b) (len b) (mask b) o.

(** [#define rb_getused_m(b)
      ((b->tail==b->head) ? 0:(b->head - b->tail + b->len) % b->len)] *)
Definition rb_getused_m (b : RingBuffer) : Z :=
  if tail b =? head b then 0
  else u16 (u16 (head b - tail b) + len b) mod len b.

(** [#define rb_getfree_m(b)
      ((b->tail==b->head) ? b->len : (b->tail - b->head + b->len) % b->len)] *)
Definition rb_getfree_m (b : RingBuffer) : Z :=
  if tail b =? head b then len b
  else u16 (u16 (tail b - head b) + len b) mod len b.

(** [memcpy(dst + doff, src + soff, n)]: the result is the destination array
    after the copy, [None] when the copy leaves either array. *)
Definition memcpy (dst : list byte) (doff : Z) (src : list byte) (soff n : Z)
  : option (list byte) :=
  if (0 <=? doff) && (0 <=? soff) && (0 <=? n)
     && (doff + n <=? Z.of_nat (length dst))
     && (soff + n <=? Z.of_nat (length src))
  then Some (take (Z.to_nat doff) dst
             ++ take (Z.to_nat n) (drop (Z.to_nat soff) src)
             ++ drop (Z.to_nat (doff + n)) dst)
  else None.

(** [uint8_t ringbuf_write(RingBuffer *buf, char* data, uint16_t n)]: the
    return code and the buffer after the call. *)
Definition ringbuf_write (buf : RingBuffer) (data : list byte) (n : Z)
  : option (Z * RingBuffer) :=
  if len buf <=? n then Some (1, buf)
  else if rb_getfree_m buf <? n then Some (1, set_overflow 1 buf)
  else if u16 (head buf + n) <? len buf then
    b1 ← memcpy (buffer buf) (head buf) data 0 n;
    Some (0, set_head (Z.land (u16 (head buf + n)) (mask buf))
               (set_buffer b1 buf))
  else
    let rem := u16 (len buf - head buf) in
    b1 ← memcpy (buffer buf) (head buf) data 0 rem;
    let h1 := Z.land (u16 (head buf + rem)) (mask buf) in
    b2 ← memcpy b1 h1 data rem (u16 (n - rem));
    Some (0, set_head (Z.land (u16 (h1 + u16 (n - rem))) (mask buf))
               (set_buffer b2 buf)).

(** [uint8_t ringbuf_read(RingBuffer *buf, char* read_buffer, uint16_t n)]:
    the return code, the buffer and the destination array after the call. *)
Definition ringbuf_read (buf : RingBuffer) (read_buffer : list byte) (n : Z)
  : option (Z * RingBuffer * list byte) :=
  if len buf <=? n then Some (1, buf, read_buffer)
  else
    let n := if rb_getused_m buf <? n then rb_getused_m buf else n in
    if u16 (tail buf + n) <? len buf then
      d1 ← memcpy read_buffer 0 (buffer buf) (tail buf) n;
      Some (0, set_tail (Z.land (u16 (tail buf + n)) (mask buf)) buf, d1)
    else
      let rem := u16 (len buf - tail buf) in
      d1 ← memcpy read_buffer 0 (buffer buf) (tail buf) rem;
      let t1 := Z.land (u16 (tail buf + rem)) (mask buf) in
      d2 ← memcpy d1 rem (buffer buf) t1 (u16 (n - rem));
      Some (0, set_tail (Z.land (u16 (t1 + u16 (n - rem))) (mask buf)) buf, d2).

(** ** Ring buffer invariant and abstraction *)

(** The state [sd_setup] establishes and every call keeps: the length is a
    power of two that fits the 16-bit cursors with room for [head + n], the
    mask is [len - 1], both cursors index the storage array. *)
Record rb_wf (b : RingBuffer) : Prop := mk_rb_wf {
  wf_pow2 : exists k, 0 <= k <= 15 /\ len b = 2 ^ k;
  wf_mask : mask b = len b - 1;
  wf_head : 0 <= head b < len b;
  wf_tail : 0 <= tail b < len b;
  wf_buffer : Z.of_nat (length (buffer b)) = len b
}.

(** The [n] bytes found by walking the storage array from [start], wrapping
    at its end. *)
Definition ring_slice (l : list byte) (start n : Z) : list byte :=
  take (Z.to_nat n) (drop (Z.to_nat start) (l ++ l)).

(** The unread bytes, oldest first. *)
Definition contents (b : RingBuffer) : list byte :=
  ring_slice (buffer b) (tail b) (rb_getused_m b).

(** How many bytes a [ringbuf_read] of [n] copies out. *)
Definition read_count (b : RingBuffer) (n : Z) : Z :=
  if len b <=? n then 0
  else if rb_getused_m b <? n then rb_getused_m b else n.

(** A call on the ring buffer and what its caller observes. *)
Inductive rb_op : Type :=
| OpWrite (data : list byte) (n : Z)
| OpRead (dest : list byte) (n : Z).

Inductive rb_result : Type :=
| ResWrite (ret : Z)
| ResRead (ret : Z) (bytes : list byte).

Definition rb_step (b : RingBuffer) (o : rb_op) : option (RingBuffer * rb_result) :=
  match o with
  | OpWrite data n =>
      '(r, b') ← ringbuf_write b data n; Some (b', ResWrite r)
  | OpRead dest n =>
      '(r, b', d') ← ringbuf_read b dest n;
      Some (b', ResRead r (take (Z.to_nat (read_count b n)) d'))
  end.

Fixpoint rb_run (b : RingBuffer) (ops : list rb_op)
  : option (RingBuffer * list rb_result) :=
  match ops with
  | [] => Some (b, [])
  | o :: ops' =>
      '(b1, r) ← rb_step b o;
      '(b2, rs) ← rb_run b1 ops';
      Some (b2, r :: rs)
  end.

(** The bytes handed to the writes, and the bytes the reads gave back. *)
Definition bytes_written (ops : list rb_op) : list byte :=
  concat (map (fun o => match o with
                        | OpWrite data n => take (Z.to_nat n) data
                        | OpRead _ _ => []
                        end) ops).

Definition bytes_read (rs : list rb_result) : list byte :=
  concat (map (fun r => match r with
                        | ResWrite _ => []
                        | ResRead _ bytes => bytes
                        end) rs).

(** The return code of a call. *)
Definition ret_of (r : rb_result) : Z :=
  match r with
  | ResWrite ret => ret
  | ResRead ret _ => ret
  end.

(** A sequence of calls that keeps to the reserved-slot contract of the design:
    every write fits the caller's array and leaves one slot of the storage
    array unused; every read asks for less than the length and its
    destination holds what will be copied. *)
Fixpoint reserved_slot_ok (b : RingBuffer) (ops : list rb_op) : Prop :=
  match ops with
  | [] => True
  | o :: ops' =>
      match o with
      | OpWrite data n =>
          0 <= n <= Z.of_nat (length data) /\ rb_getused_m b + n < len b
      | OpRead dest n =>
          0 <= n < len b /\ read_count b n <= Z.of_nat (length dest)
      end /\
      forall b' r, rb_step b o = Some (b', r) -> reserved_slot_ok b' ops'
  end.

(** A call whose byte count is a [uint16_t] value within the caller's array:
    such a call never leaves the bounds of either array. *)
Definition op_fits (o : rb_op) : Prop :=
  match o with
  | OpWrite data n => 0 <= n <= Z.of_nat (length data)
  | OpRead dest n => 0 <= n <= Z.of_nat (length dest)
  end.

(** Two buffers a caller cannot tell apart: same cursors, length and flag,
    same unread bytes; the cells outside the unread stretch may differ. *)
Definition same_view (b1 b2 : RingBuffer) : Prop :=
  rb_wf b1 /\ rb_wf b2 /\ head b1 = head b2 /\ tail b1 = tail b2
  /\ len b1 = len b2 /\ overflow b1 = overflow b2
  /\ contents b1 = contents b2.

(** ** The logger *)

(** Result codes of the FatFs driver ([ff.h], an external library):
    [FR_OK] is zero, every other value is a failure. *)
Definition FRESULT := Z.
Definition FR_OK : FRESULT := 0.

(** Texts sent to the display or the UART, by the format that builds them. *)
Inductive msg : Type :=
| MsgEmpty
| MsgInsertCard
| MsgMountFail (fr : FRESULT)
| MsgOpenFail (fr : FRESULT)
| MsgCloseFail (fr : FRESULT)
| MsgSyncFail
| MsgWriteFail (fr : FRESULT)
| MsgBufferOverflow
| MsgLogging (on : bool)
| MsgFree (used_mb total_mb percent : Z)
| MsgBuffer (percent : Z)
| MsgFile (kb : Z).

(** Calls that leave the core, in program order. *)
Inductive io : Type :=
| EDelay (ms : Z)
| EUart (m : msg)
| ELcdDebug (m : msg)
| ELcdRow (row : Z) (m : msg)
| ELed (on : bool)
| EGetFree
| EMount (fr : FRESULT)
| EOpen (fr : FRESULT)
| EWrite (bytes : list byte) (fr : FRESULT)
| ESync (fr : FRESULT)
| EClose (fr : FRESULT)
| EAdcConvert
| EAccelFSM.

(** The file-scope variables of [logger.c] the core reads and writes, and
    the timer control register [TA1CTL]. *)
Record sys : Type := mkSys {
  sdbuf : RingBuffer;
  writebuf : list byte;
  logger_running : Z;
  file_open : Z;
  time : Z;
  ta1ctl : Z
}.

Definition set_sdbuf (b : RingBuffer) (s : sys) : sys :=
  mkSys b (writebuf s) (logger_running s) (file_open s) (time s) (ta1ctl s).
Definition set_writebuf (w : list byte) (s : sys) : sys :=
  mkSys (sdbuf s) w (logger_running s) (file_open s) (time s) (ta1ctl s).
Definition set_logger_running (r : Z) (s : sys) : sys :=
  mkSys (sdbuf s) (writebuf s) r (file_open s) (time s) (ta1ctl s).
Definition set_file_open (f : Z) (s : sys) : sys :=
  mkSys (sdbuf s) (writebuf s) (logger_running s) f (time s) (ta1ctl s).
Definition set_time (t : Z) (s : sys) : sys :=
  mkSys (sdbuf s) (writebuf s) (logger_running s) (file_open s) t (ta1ctl s).
Definition set_ta1ctl (c : Z) (s : sys) : sys :=
  mkSys (sdbuf s) (writebuf s) (logger_running s) (file_open s) (time s) c.

(** What a piece of the supervisor does: it runs to its end, or it is still
    inside a retry loop when the recorded driver answers run out, or it
    leaves the defined behaviour of C. *)
Inductive outcome : Type :=
| Done (s : sys) (t : list io)
| Blocked (s : sys) (t : list io)
| Undefined.

Definition andthen (m : outcome) (f : sys -> outcome) : outcome :=
  match m with
  | Done s t =>
      match f s with
      | Done s' t' => Done s' (t ++ t')
      | Blocked s' t' => Blocked s' (t ++ t')
      | Undefined => Undefined
      end
  | Blocked s t => Blocked s t
  | Undefined => Undefined
  end.

(** What the environment supplies to one pass of the supervisor loop: the
    answers of the successive [f_open] and [f_close] calls, of [f_write] and
    [f_sync], the tick count read for the display cadence and the figures
    [update_lcd] obtains from the driver. *)
Record oracle : Type := mkOracle {
  open_rs : list FRESULT;
  write_fr : FRESULT;
  sync_fr : FRESULT;
  close_rs : list FRESULT;
  lcd_clk : Z;
  fre_clust : Z;
  n_fatent : Z;
  csize : Z;
  fsz : Z
}.

(** [void update_lcd(RingBuffer *buf)].  [f_getfree] is called and its
    figures are the ones of the oracle; [tot_sect] and [fre_sect] are
    [DWORD]s, computed modulo 2^32, and the three numbers of the first text
    are computed before anything is drawn, so a volume for which
    [tot_sect] is zero makes the division [(100*fre_sect)/tot_sect]
    undefined and nothing is shown.  The percentage of the buffer is
    computed in 16-bit arithmetic, as [(100*rb_getused_m(buf))/buf->len] is
    on the target. *)
Definition update_lcd (o : oracle) (buf : RingBuffer) : option (list io) :=
  let tot_sect := u32 (u32 (n_fatent o - 2) * csize o) in
  let fre_sect := u32 (fre_clust o * csize o) in
  if (tot_sect =? 0) || (len buf =? 0) then None
  else
    Some ([EGetFree;
           ELcdRow 4 (MsgFree (u32 (tot_sect - fre_sect) / 2000)
                              (tot_sect / 2000)
                              (u32 (100 - u32 (100 * fre_sect) / tot_sect)));
           ELcdRow 2 (MsgBuffer (u16 (100 * rb_getused_m buf) / len buf));
           ELcdRow 3 (MsgFile (u32 (fsz o) / 1000))]
          ++ (if overflow buf =? 0 then [] else [ELcdDebug MsgBufferOverflow])).

(** A trace that ends with what [update_lcd] does. *)
Definition then_update_lcd (o : oracle) (s : sys) (t : list io) : outcome :=
  match update_lcd o (sdbuf s) with
  | Some tl => Done s (t ++ tl)
  | None => Undefined
  end.

(** [FRESULT sd_write(RingBuffer *rb, char *writebuf, FIL *fil, uint16_t n)]:
    the result of [ringbuf_read] is dropped and [f_write] is handed the
    first [n] bytes of the scratch array whatever was copied into it. *)
Definition sd_write (fr : FRESULT) (n : Z) (s : sys) : outcome :=
  match ringbuf_read (sdbuf s) (writebuf s) n with
  | None => Undefined
  | Some (_, rb', wb') =>
      if (0 <=? n) && (n <=? Z.of_nat (length wb')) then
        Done (set_writebuf wb' (set_sdbuf rb' s))
             ([ELed true; EWrite (take (Z.to_nat n) wb') fr]
              ++ (if fr =? FR_OK then [] else [ELcdDebug (MsgWriteFail fr)])
              ++ [ELed false])
      else Undefined
  end.

(** The retry loops of [sd_setup] have one shape: while the last answer
    [fr] is not [FR_OK], do what comes [before] the next call, make the
    call, do what comes [after] it.  [rs] lists the answers of the calls
    the loop will make; the flag tells whether the loop was left. *)
Fixpoint retry_loop (before : FRESULT -> list io) (call : FRESULT -> io)
    (after : list io) (fr : FRESULT) (rs : list FRESULT) : bool * list io :=
  if fr =? FR_OK then (true, [])
  else match rs with
       | [] => (false, before fr)
       | fr' :: rs' =>
           let '(ok, t) := retry_loop before call after fr' rs' in
           (ok, before fr ++ call fr' :: after ++ t)
       end.

(** The first call and its loop together. *)
Definition retry (before : FRESULT -> list io) (call : FRESULT -> io)
    (after : list io) (rs : list FRESULT) : bool * list io :=
  match rs with
  | [] => (false, [])
  | fr :: rs' =>
      let '(ok, t) := retry_loop before call after fr rs' in (ok, call fr :: t)
  end.

(** [fr = f_mount(0, &FatFs);
     while( fr != FR_OK ) { sprintf(s, "Mount fail: %d", fr); uart_debug(s);
                            _delay_ms(100); fr = f_mount(0, &FatFs); }] *)
Definition mount_retry : list FRESULT -> bool * list io :=
  retry (fun fr => [EUart (MsgMountFail fr); EDelay 100]) EMount [].

(** [fr = f_open(&fil, "data.log", ...);
     while( fr != FR_OK ) { _delay_ms(500); sprintf(s, "Open fail: %d", fr);
                            uart_debug(s); fr = f_open(&fil, ...); }] *)
Definition open_retry : list FRESULT -> bool * list io :=
  retry (fun fr => [EDelay 500; EUart (MsgOpenFail fr)]) EOpen [].

(** [fr = f_close(&fil);
     while(fr != FR_OK) { sprintf(s, "close fail: %d", fr); lcd_debug(s);
                          fr = f_close(&fil); _delay_ms(100); }] *)
Definition close_retry : list FRESULT -> bool * list io :=
  retry (fun fr => [ELcdDebug (MsgCloseFail fr)]) EClose [EDelay 100].

(** The part of [sd_setup] before its loop: the ring buffer is set up over
    the storage array [ringbuf] of [SD_RINGBUF_LEN] bytes (a constant of a
    header that is not part of the sources, hence a parameter). *)
Definition sd_setup_ringbuf (ringbuf : list byte) (SD_RINGBUF_LEN : Z)
  : RingBuffer :=
  mkRingBuffer ringbuf 0 0 SD_RINGBUF_LEN (u16 (SD_RINGBUF_LEN - 1)) 0.

(** [while(!detectCard()) { _delay_ms(250); lcd_debug("Insert SD Card"); }]:
    [card] lists what the successive calls of [detectCard] return. *)
Fixpoint card_wait (card : list bool) : bool * list io :=
  match card with
  | [] => (false, [])
  | true :: _ => (true, [])
  | false :: card' =>
      let '(ok, t) := card_wait card' in
      (ok, EDelay 250 :: ELcdDebug MsgInsertCard :: t)
  end.

Definition sd_setup_mount (o : oracle) (card : list bool) (mount_rs : list FRESULT)
    (s : sys) : outcome :=
  let '(present, wait) := card_wait card in
  if present then
    let '(ok, t) := mount_retry mount_rs in
    if ok then then_update_lcd o s (wait ++ [ELcdDebug MsgEmpty] ++ t)
    else Blocked s (wait ++ [ELcdDebug MsgEmpty] ++ t)
  else Blocked s wait.

(** [if(logger_running && !file_open) { ... }] *)
Definition open_on_start (o : oracle) (s : sys) : outcome :=
  if negb (logger_running s =? 0) && (file_open s =? 0) then
    let '(ok, t) := open_retry (open_rs o) in
    if ok then
      Done (set_file_open 1 (set_sdbuf (set_overflow 0 (sdbuf s)) s))
           (t ++ [ELcdDebug MsgEmpty])
    else Blocked s t
  else Done s [].

(** [if(!logger_running && file_open) { ... }] *)
Definition close_on_stop (o : oracle) (s : sys) : outcome :=
  if (logger_running s =? 0) && negb (file_open s =? 0) then
    andthen (sd_write (write_fr o) (rb_getused_m (sdbuf s)) s) (fun s1 =>
      let sync := ESync (sync_fr o)
                  :: (if sync_fr o =? FR_OK then [] else [ELcdDebug MsgSyncFail]) in
      let '(ok, t) := close_retry (close_rs o) in
      if ok then Done (set_file_open 0 s1) (sync ++ t)
      else Blocked s1 (sync ++ t))
  else Done s [].

(** [if((rb_getused_m(sdbuf) > 512) && file_open && logger_running)
      sd_write(sdbuf, writebuf, &fil, 512);] *)
Definition drain_block (o : oracle) (s : sys) : outcome :=
  if (512 <? rb_getused_m (sdbuf s)) && negb (file_open s =? 0)
     && negb (logger_running s =? 0)
  then sd_write (write_fr o) 512 s
  else Done s [].

(** [if((clock_time() % 333) == 0) update_lcd(sdbuf);] *)
Definition status_refresh (o : oracle) (s : sys) : outcome :=
  if u32 (lcd_clk o) mod 333 =? 0 then then_update_lcd o s []
  else Done s [].

(** One pass through the body of [while(1)] in [sd_setup]. *)
Definition sd_loop_body (o : oracle) (s : sys) : outcome :=
  andthen (andthen (andthen (open_on_start o s) (close_on_stop o))
                   (drain_block o))
          (status_refresh o).

(** Bits of [TA1CTL] and of [P1IV], from the device header of the
    MSP430F5529 (not part of the sources). *)
Definition MC_1 : Z := 16.
Definition MC_3 : Z := 48.
Definition P1IV_P1IFG7 : Z := 16.

(** [void logger_enable(void)] *)
Definition logger_enable (s : sys) : sys * list io :=
  let s1 := set_ta1ctl (Z.land (ta1ctl s) (u16 (Z.lnot MC_3))) s in
  let s2 := set_logger_running 1 s1 in
  (set_ta1ctl (Z.lor (ta1ctl s2) MC_1) s2, [ELcdRow 1 (MsgLogging true)]).

(** [void logger_disable(void)] *)
Definition logger_disable (s : sys) : sys * list io :=
  let s1 := set_ta1ctl (Z.land (ta1ctl s) (u16 (Z.lnot MC_3))) s in
  (set_logger_running 0 s1, [ELcdRow 1 (MsgLogging false)]).

(** [interrupt(TIMER1_A0_VECTOR) TIMER1_A0_ISR(void)]: [sample] is the
    [SampleBuffer] as the tick finds it, [clk] what [clock_time()] returns. *)
Definition TIMER1_A0_ISR (sample : list byte) (clk : Z) (s : sys) : outcome :=
  let rest := EAdcConvert :: (if u32 clk mod 100 =? 0 then [EAccelFSM] else []) in
  if file_open s =? 0 then Done s rest
  else match ringbuf_write (sdbuf s) sample (Z.of_nat (length sample)) with
       | None => Undefined
       | Some (_, b') => Done (set_sdbuf b' s) rest
       end.

(** [interrupt(PORT1_VECTOR) PORT1_ISR(void)]: [p1iv] is the value read from
    [P1IV], [clk] what [clock_time()] returns (interrupts do not nest on this
    target, so both calls in the handler see the same tick). *)
Definition PORT1_ISR (p1iv clk : Z) (s : sys) : sys * list io :=
  if negb (Z.land p1iv P1IV_P1IFG7 =? 0) && (250 <? u32 (clk - time s)) then
    let s1 := set_time clk s in
    if logger_running s1 =? 0 then logger_enable s1 else logger_disable s1
  else (s, []).

(** The things that happen to the logger once [sd_setup] has reached its
    loop; a pass of the loop is taken as one step, so the runs of
    [sys_run] are those in which the handlers are served between two passes.
    Handlers served inside the closing branch of a pass are what
    [close_on_stop_preempted] adds. *)
Inductive event : Type :=
| Tick (sample : list byte) (clk : Z)
| Button1 (p1iv clk : Z)
| Loop (o : oracle).

Definition sys_step (s : sys) (e : event) : outcome :=
  match e with
  | Tick sample clk => TIMER1_A0_ISR sample clk s
  | Button1 p1iv clk => let '(s', t) := PORT1_ISR p1iv clk s in Done s' t
  | Loop o => sd_loop_body o s
  end.

Fixpoint sys_run (s : sys) (es : list event) : outcome :=
  match es with
  | [] => Done s []
  | e :: es' => andthen (sys_step s e) (fun s' => sys_run s' es')
  end.

(** The logger as [logger_init] hands it to the loop of [sd_setup]: the
    buffer set up, [logger_running] cleared, the other file-scope variables
    still zero. *)
Definition sys_init (ringbuf : list byte) (SD_RINGBUF_LEN : Z) (ctl : Z) : sys :=
  mkSys (sd_setup_ringbuf ringbuf SD_RINGBUF_LEN) (replicate 512 x00) 0 0 0 ctl.

Definition reachable (ringbuf : list byte) (SD_RINGBUF_LEN ctl : Z) (s : sys) : Prop :=
  exists es t, sys_run (sys_init ringbuf SD_RINGBUF_LEN ctl) es = Done s t.

(** The calls into the storage driver among the events of a trace. *)
Definition is_storage_call (e : io) : bool :=
  match e with
  | EGetFree | EMount _ | EOpen _ | EWrite _ _ | ESync _ | EClose _ => true
  | _ => false
  end.

Definition storage_calls (t : list io) : list io :=
  List.filter is_storage_call t.

(** [logger_running] after one transition of the start/stop machine. *)
Definition toggled (r : Z) : Z := if r =? 0 then 1 else 0.

(** ** From the samples to the file *)

(** The bytes handed to [f_write] in a trace, in order. *)
Definition written (t : list io) : list byte :=
  concat (map (fun e => match e with
                        | EWrite bytes _ => bytes
                        | _ => []
                        end) t).

(** Whether the tick that finds the logger in state [s] gets its sample into
    the buffer: a file is open and both guards of [ringbuf_write] let the
    sample through. *)
Definition tick_accepts (s : sys) (sample : list byte) : bool :=
  negb (file_open s =? 0)
  && (Z.of_nat (length sample) <? len (sdbuf s))
  && negb (rb_getfree_m (sdbuf s) <? Z.of_nat (length sample)).

(** The samples a run of events gets into the buffer, in order. *)
Fixpoint logged (s : sys) (es : list event) : list byte :=
  match es with
  | [] => []
  | e :: es' =>
      match e with
      | Tick sample _ => if tick_accepts s sample then sample else []
      | _ => []
      end
      ++ match sys_step s e with
         | Done s' _ => logged s' es'
         | _ => []
         end
  end.


(** ** Interrupts while the file is being closed *)

(** The handlers that can be served while the supervisor is inside a
    pass. *)
Inductive interrupt : Type :=
| ITick (sample : list byte) (clk : Z)
| IButton1 (p1iv clk : Z).

Definition event_of (i : interrupt) : event :=
  match i with
  | ITick sample clk => Tick sample clk
  | IButton1 p1iv clk => Button1 p1iv clk
  end.

(** The closing branch of [sd_setup] with the interrupts [ints] served
    while it is under way.  Nothing in [sd_setup] masks the interrupts and
    the driver calls touch none of the logger's variables, so handlers that
    run while [f_sync] and [f_close] are at work act on the logger as if
    between the two calls, which is where the trace has them: after
    [f_sync], before the first [f_close], and so before [file_open = 0]. *)
Definition close_on_stop_preempted (o : oracle) (ints : list interrupt)
    (s : sys) : outcome :=
  if (logger_running s =? 0) && negb (file_open s =? 0) then
    andthen (sd_write (write_fr o) (rb_getused_m (sdbuf s)) s) (fun s1 =>
      let sync := ESync (sync_fr o)
                  :: (if sync_fr o =? FR_OK then [] else [ELcdDebug MsgSyncFail]) in
      andthen (andthen (Done s1 sync)
                       (fun s1 => sys_run s1 (map event_of ints)))
              (fun s2 =>
                 let '(ok, t) := close_retry (close_rs o) in
                 if ok then Done (set_file_open 0 s2) t else Blocked s2 t))
  else Done s [].

(** ** The debug UART ([uart.c]) *)

(** [strlen]: the number of bytes before the first NUL of a C string held in
    the array [l]; [None] when the array has no NUL and the scan leaves it. *)
Fixpoint strlen (l : list byte) : option Z :=
  match l with
  | [] => None
  | x00 :: _ => Some 0
  | _ :: l' => n ← strlen l'; Some (1 + n)
  end.

(** [static void _uart_tx(char* string)]: the bytes stored to [UCA1TXBUF],
    in order: those before the first NUL.  The wait for [UCTXIFG] before
    each store is left to the hardware. *)
Fixpoint _uart_tx (string : list byte) : option (list byte) :=
  match string with
  | [] => None
  | x00 :: _ => Some []
  | c :: l' => t ← _uart_tx l'; Some (c :: t)
  end.

(** The literals ["[WARN] UART BUF_OVF"] and ["\r\n"], with their NUL. *)
Definition uart_warning : list byte :=
  [x5b; x57; x41; x52; x4e; x5d; x20; x55; x41; x52; x54; x20;
   x42; x55; x46; x5f; x4f; x56; x46; x00].
Definition uart_crlf : list byte := [x0d; x0a; x00].

(** [void uart_debug(char* string)], which calls itself for the warning:
    [fuel] bounds the depth of the calls, [UART_BUF_LEN] is a constant of
    [uart.h], which is not part of the sources. *)
Fixpoint uart_debug (fuel : nat) (UART_BUF_LEN : Z) (string : list byte)
  : option (list byte) :=
  match fuel with
  | O => None
  | S fuel' =>
      n ← strlen string;
      w ← (if UART_BUF_LEN <=? n
           then uart_debug fuel' UART_BUF_LEN uart_warning else Some []);
      t ← _uart_tx string;
      e ← _uart_tx uart_crlf;
      Some (w ++ t ++ e)
  end.

(** * Properties *)

(** ** Machine arithmetic on well-formed buffers *)

Lemma u16_id x : 0 <= x < 65536 -> u16 x = x.
Proof. intros H. unfold u16. now apply Z.mod_small. Qed.

Lemma u16_neg x : -65536 <= x < 0 -> u16 x = x + 65536.
Proof.
  intros H. unfold u16. symmetry.
  apply (Z.mod_unique x 65536 (-1)); lia.
Qed.

(** A value within one length of the range [0, m) reduces by one step. *)
Lemma mod_range m x :
  0 < m -> - m <= x < 2 * m ->
  x mod m = if x <? 0 then x + m else if x <? m then x else x - m.
Proof.
  intros Hm Hx.
  destruct (Z.ltb_spec x 0); [|destruct (Z.ltb_spec x m)].
  - symmetry. apply (Z.mod_unique x m (-1)); lia.
  - now apply Z.mod_small.
  - symmetry. apply (Z.mod_unique x m 1); lia.
Qed.

Section WellFormed.
Variable b : RingBuffer.
Hypothesis Hwf : rb_wf b.

Lemma wf_len_range : 0 < len b <= 32768.
Proof.
  destruct (wf_pow2 b Hwf) as (k & Hk & ->). split.
  - apply Z.pow_pos_nonneg; lia.
  - change 32768 with (2 ^ 15). apply Z.pow_le_mono_r; lia.
Qed.

Lemma wf_length : length (buffer b) = Z.to_nat (len b).
Proof. pose proof (wf_buffer b Hwf). lia. Qed.

(** [x & buf->mask] is [x mod buf->len]. *)
Lemma land_mask x : Z.land x (mask b) = x mod len b.
Proof.
  rewrite (wf_mask b Hwf).
  destruct (wf_pow2 b Hwf) as (k & Hk & ->).
  rewrite <- Z.land_ones by lia. f_equal.
  rewrite Z.ones_equiv. lia.
Qed.

Lemma rb_getused_m_wf :
  rb_getused_m b
  = if tail b <=? head b then head b - tail b else head b - tail b + len b.
Proof.
  pose proof wf_len_range. pose proof (wf_head b Hwf). pose proof (wf_tail b Hwf).
  unfold rb_getused_m.
  destruct (Z.eqb_spec (tail b) (head b)) as [->|Hne].
  - rewrite Z.leb_refl. lia.
  - destruct (Z.leb_spec (tail b) (head b)).
    + rewrite (u16_id (head b - tail b)) by lia.
      rewrite u16_id by lia.
      rewrite mod_range by lia.
      destruct (Z.ltb_spec (head b - tail b + len b) 0); [lia|].
      destruct (Z.ltb_spec (head b - tail b + len b) (len b)); lia.
    + rewrite (u16_neg (head b - tail b)) by lia.
      replace (head b - tail b + 65536 + len b)
        with (head b - tail b + len b + 1 * 65536) by lia.
      unfold u16. rewrite Z.mod_add by lia.
      rewrite (Z.mod_small _ 65536) by lia.
      now apply Z.mod_small; lia.
Qed.

Lemma rb_getfree_m_wf : rb_getfree_m b = len b - rb_getused_m b.
Proof.
  pose proof wf_len_range. pose proof (wf_head b Hwf). pose proof (wf_tail b Hwf).
  rewrite rb_getused_m_wf. unfold rb_getfree_m.
  destruct (Z.eqb_spec (tail b) (head b)) as [->|Hne].
  - rewrite Z.leb_refl. lia.
  - destruct (Z.leb_spec (tail b) (head b)).
    + rewrite (u16_neg (tail b - head b)) by lia.
      replace (tail b - head b + 65536 + len b)
        with (tail b - head b + len b + 1 * 65536) by lia.
      unfold u16. rewrite Z.mod_add by lia.
      rewrite (Z.mod_small _ 65536) by lia.
      rewrite Z.mod_small by lia. lia.
    + rewrite (u16_id (tail b - head b)) by lia.
      rewrite u16_id by lia.
      rewrite mod_range by lia.
      destruct (Z.ltb_spec (tail b - head b + len b) 0); [lia|].
      destruct (Z.ltb_spec (tail b - head b + len b) (len b)); lia.
Qed.

Lemma rb_getused_m_range : 0 <= rb_getused_m b < len b.
Proof.
  pose proof (wf_head b Hwf). pose proof (wf_tail b Hwf).
  rewrite rb_getused_m_wf. destruct (Z.leb_spec (tail b) (head b)); lia.
Qed.

Lemma rb_getused_m_zero : rb_getused_m b = 0 <-> head b = tail b.
Proof.
  pose proof (wf_head b Hwf). pose proof (wf_tail b Hwf).
  rewrite rb_getused_m_wf. destruct (Z.leb_spec (tail b) (head b)); lia.
Qed.
End WellFormed.

(** ** Copies *)

Lemma memcpy_ok dst doff src soff n :
  0 <= doff -> 0 <= soff -> 0 <= n ->
  doff + n <= Z.of_nat (length dst) -> soff + n <= Z.of_nat (length src) ->
  memcpy dst doff src soff n
  = Some (take (Z.to_nat doff) dst
          ++ take (Z.to_nat n) (drop (Z.to_nat soff) src)
          ++ drop (Z.to_nat (doff + n)) dst).
Proof.
  intros. unfold memcpy.
  repeat match goal with
         | |- context [?x <=? ?y] => destruct (Z.leb_spec x y); [|lia]
         end.
  reflexivity.
Qed.

Lemma memcpy_length dst doff src soff n dst' :
  memcpy dst doff src soff n = Some dst' -> length dst' = length dst.
Proof.
  unfold memcpy.
  repeat match goal with
         | |- context [?x <=? ?y] => destruct (Z.leb_spec x y); simpl
         end; try discriminate.
  intros [= <-]. rewrite !length_app, !length_take, !length_drop. lia.
Qed.

Lemma ring_slice_length l start n :
  0 <= start -> 0 <= n -> start + n <= 2 * Z.of_nat (length l) ->
  length (ring_slice l start n) = Z.to_nat n.
Proof.
  intros. unfold ring_slice.
  rewrite length_take, length_drop, length_app. lia.
Qed.

(** The [k]-th byte of a slice sits [k] places after its start, modulo the
    length of the array. *)
Lemma ring_slice_lookup l start n (k : nat) :
  0 <= start < Z.of_nat (length l) -> Z.of_nat k < n <= Z.of_nat (length l) ->
  ring_slice l start n !! k
  = l !! Z.to_nat ((start + Z.of_nat k) mod Z.of_nat (length l)).
Proof.
  intros Hs Hk. unfold ring_slice.
  rewrite lookup_take_lt by lia. rewrite lookup_drop.
  rewrite mod_range by lia.
  destruct (Z.ltb_spec (start + Z.of_nat k) 0); [lia|].
  destruct (Z.ltb_spec (start + Z.of_nat k) (Z.of_nat (length l))).
  - rewrite lookup_app_l by lia. f_equal. lia.
  - rewrite lookup_app_r by lia. f_equal. lia.
Qed.

(** ** What a read does on a well-formed buffer *)

Lemma read_count_range b n :
  rb_wf b -> 0 <= n ->
  0 <= read_count b n <= rb_getused_m b /\ read_count b n <= n.
Proof.
  intros Hwf Hn. pose proof (rb_getused_m_range b Hwf). unfold read_count.
  destruct (Z.leb_spec (len b) n); [lia|].
  destruct (Z.ltb_spec (rb_getused_m b) n); lia.
Qed.

Lemma ringbuf_read_wf b dest n :
  rb_wf b -> 0 <= n < len b ->
  read_count b n <= Z.of_nat (length dest) ->
  ringbuf_read b dest n
  = Some (0, set_tail ((tail b + read_count b n) mod len b) b,
          ring_slice (buffer b) (tail b) (read_count b n)
          ++ drop (Z.to_nat (read_count b n)) dest).
Proof.
  intros Hwf Hn Hdest.
  pose proof (wf_len_range b Hwf) as Hlen.
  pose proof (wf_tail b Hwf) as Ht.
  pose proof (wf_buffer b Hwf) as Hbuf.
  pose proof (rb_getused_m_range b Hwf) as Hused.
  pose proof (read_count_range b n Hwf ltac:(lia)) as Hm.
  unfold ringbuf_read. revert Hdest Hm. unfold read_count.
  destruct (Z.leb_spec (len b) n) as [|_]; [lia|].
  set (m := if rb_getused_m b <? n then rb_getused_m b else n).
  intros Hdest Hm.
  rewrite (u16_id (tail b + m)) by lia.
  destruct (Z.ltb_spec (tail b + m) (len b)) as [Hfit|Hwrap].
  - rewrite memcpy_ok by lia. simpl.
    rewrite land_mask by assumption.
    do 3 f_equal. unfold ring_slice.
    rewrite drop_app_le by lia.
    rewrite take_app_le by (rewrite length_drop; lia).
    reflexivity.
  - rewrite (u16_id (len b - tail b)) by lia.
    rewrite (u16_id (m - (len b - tail b))) by lia.
    rewrite memcpy_ok by lia. simpl.
    rewrite !land_mask by assumption.
    replace (tail b + (len b - tail b)) with (len b) by lia.
    rewrite (u16_id (len b)) by lia.
    rewrite Z.mod_same by lia.
    rewrite memcpy_ok; try lia.
    2:{ rewrite length_app, length_take, !length_drop. lia. }
    simpl. rewrite u16_id by lia.
    replace (0 + (m - (len b - tail b))) with (tail b + m - len b) by lia.
    f_equal. f_equal.
    + f_equal. f_equal. rewrite (mod_range (len b) (tail b + m)) by lia.
      destruct (Z.ltb_spec (tail b + m) 0); [lia|].
      destruct (Z.ltb_spec (tail b + m) (len b)); [lia|].
      rewrite Z.mod_small by lia. reflexivity.
    + set (A := drop (Z.to_nat (tail b)) (buffer b)).
      assert (HA : length A = Z.to_nat (len b - tail b))
        by (unfold A; rewrite length_drop; lia).
      rewrite (take_ge A) by lia.
      rewrite take_app_length' by lia.
      rewrite drop_app_ge by lia. rewrite drop_drop.
      unfold ring_slice. rewrite drop_app_le by lia. fold A.
      rewrite take_app_ge by lia.
      simpl (Z.to_nat 0). rewrite drop_0. rewrite <- app_assoc.
      f_equal. f_equal; f_equal; lia.
Qed.

(** ** What a write does on a well-formed buffer *)

Ltac list_len :=
  repeat first [rewrite length_app | rewrite length_take | rewrite length_drop];
  lia.

Ltac list_lookup :=
  repeat first
    [ rewrite lookup_app_l by list_len
    | rewrite lookup_app_r by list_len
    | rewrite lookup_take_lt by list_len
    | rewrite lookup_drop ].

Ltac mod_cases :=
  repeat match goal with
         | |- context [?x <? ?y] => destruct (Z.ltb_spec x y)
         end.

(** A write that passes both guards stores its [n] bytes from [head] on,
    wrapping at the end of the array, leaves every other cell alone and
    advances [head] by [n] modulo the length. *)
Lemma ringbuf_write_wf b data n :
  rb_wf b -> 0 <= n < len b -> n <= rb_getfree_m b ->
  n <= Z.of_nat (length data) ->
  exists buf',
    ringbuf_write b data n
    = Some (0, set_head ((head b + n) mod len b) (set_buffer buf' b))
    /\ length buf' = length (buffer b)
    /\ forall i : nat, Z.of_nat i < len b ->
         buf' !! i
         = if (Z.of_nat i - head b) mod len b <? n
           then data !! Z.to_nat ((Z.of_nat i - head b) mod len b)
           else buffer b !! i.
Proof.
  intros Hwf Hn Hfree Hdata.
  pose proof (wf_len_range b Hwf) as Hlen.
  pose proof (wf_head b Hwf) as Hh.
  pose proof (wf_buffer b Hwf) as Hbuf.
  unfold ringbuf_write.
  destruct (Z.leb_spec (len b) n) as [|_]; [lia|].
  destruct (Z.ltb_spec (rb_getfree_m b) n) as [|_]; [lia|].
  rewrite (u16_id (head b + n)) by lia.
  destruct (Z.ltb_spec (head b + n) (len b)) as [Hfit|Hwrap].
  - rewrite memcpy_ok by lia. simpl. rewrite land_mask by assumption.
    eexists. split; [reflexivity|]. split; [list_len|].
    intros i Hi. rewrite (mod_range (len b) (Z.of_nat i - head b)) by lia.
    rewrite drop_0.
    destruct (Z.ltb_spec (Z.of_nat i - head b) 0) as [Hlt|Hge].
    + destruct (Z.ltb_spec (Z.of_nat i - head b + len b) n); [lia|].
      now list_lookup.
    + destruct (Z.ltb_spec (Z.of_nat i - head b) (len b)); [|lia].
      destruct (Z.ltb_spec (Z.of_nat i - head b) n).
      * list_lookup. f_equal. list_len.
      * list_lookup. f_equal. list_len.
  - rewrite (u16_id (len b - head b)) by lia.
    rewrite (u16_id (n - (len b - head b))) by lia.
    rewrite memcpy_ok by lia. simpl. rewrite !land_mask by assumption.
    replace (head b + (len b - head b)) with (len b) by lia.
    rewrite (u16_id (len b)) by lia. rewrite Z.mod_same by lia.
    rewrite memcpy_ok; try lia; [|list_len].
    simpl. rewrite u16_id by lia.
    replace (0 + (n - (len b - head b))) with (head b + n - len b) by lia.
    rewrite (Z.mod_small (head b + n - len b)) by lia.
    rewrite (mod_range (len b) (head b + n)) by lia.
    destruct (Z.ltb_spec (head b + n) 0); [lia|].
    destruct (Z.ltb_spec (head b + n) (len b)); [lia|].
    eexists. split; [reflexivity|]. split; [list_len|].
    intros i Hi. rewrite (mod_range (len b) (Z.of_nat i - head b)) by lia.
    rewrite drop_0.
    destruct (Z.ltb_spec (Z.of_nat i - head b) 0) as [Hlt|Hge].
    + destruct (Z.ltb_spec (Z.of_nat i - head b + len b) n).
      * list_lookup. f_equal. lia.
      * rewrite lookup_app_r by list_len. list_lookup. f_equal. list_len.
    + destruct (Z.ltb_spec (Z.of_nat i - head b) (len b)); [|lia].
      destruct (Z.ltb_spec (Z.of_nat i - head b) n); [|lia].
      rewrite lookup_app_r by list_len. list_lookup. f_equal. list_len.
Qed.

(** ** Slices of the storage array *)

Lemma list_eq_upto (l1 l2 : list byte) (n : nat) :
  length l1 = n -> length l2 = n ->
  (forall k : nat, (k < n)%nat -> l1 !! k = l2 !! k) -> l1 = l2.
Proof.
  intros H1 H2 H. apply list_eq. intros k.
  destruct (decide (k < n)%nat) as [Hk|Hk]; [now apply H|].
  rewrite !lookup_ge_None_2 by lia. reflexivity.
Qed.

Lemma ring_slice_take l s n m :
  0 <= m <= n -> take (Z.to_nat m) (ring_slice l s n) = ring_slice l s m.
Proof.
  intros H. unfold ring_slice. rewrite take_take. f_equal. lia.
Qed.

Lemma ring_slice_drop l s n m :
  0 <= s < Z.of_nat (length l) -> 0 <= m <= n -> n <= Z.of_nat (length l) ->
  drop (Z.to_nat m) (ring_slice l s n)
  = ring_slice l ((s + m) mod Z.of_nat (length l)) (n - m).
Proof.
  intros Hs Hm Hn.
  pose proof (Z.mod_pos_bound (s + m) (Z.of_nat (length l)) ltac:(lia)) as Hb.
  apply (list_eq_upto _ _ (Z.to_nat (n - m))).
  - rewrite length_drop, ring_slice_length by lia. lia.
  - rewrite ring_slice_length by lia. reflexivity.
  - intros k Hk. rewrite lookup_drop.
    rewrite !ring_slice_lookup by lia.
    rewrite Zplus_mod_idemp_l.
    replace (s + Z.of_nat (Z.to_nat m + k)) with (s + m + Z.of_nat k) by lia.
    reflexivity.
Qed.

Lemma ring_slice_app l s n1 n2 :
  0 <= s < Z.of_nat (length l) -> 0 <= n1 -> 0 <= n2 ->
  n1 + n2 <= Z.of_nat (length l) ->
  ring_slice l s (n1 + n2)
  = ring_slice l s n1 ++ ring_slice l ((s + n1) mod Z.of_nat (length l)) n2.
Proof.
  intros Hs H1 H2 Hn.
  rewrite <- (take_drop (Z.to_nat n1) (ring_slice l s (n1 + n2))).
  rewrite ring_slice_take by lia. rewrite ring_slice_drop by lia.
  do 2 f_equal. lia.
Qed.

(** Two arrays that agree on the cells a slice visits give the same slice. *)
Lemma ring_slice_ext l l' s n :
  length l' = length l ->
  0 <= s < Z.of_nat (length l) -> 0 <= n <= Z.of_nat (length l) ->
  (forall k : nat, Z.of_nat k < n ->
     l' !! Z.to_nat ((s + Z.of_nat k) mod Z.of_nat (length l))
     = l !! Z.to_nat ((s + Z.of_nat k) mod Z.of_nat (length l))) ->
  ring_slice l' s n = ring_slice l s n.
Proof.
  intros Hl Hs Hn H.
  apply (list_eq_upto _ _ (Z.to_nat n)).
  - apply ring_slice_length; lia.
  - apply ring_slice_length; lia.
  - intros k Hk. rewrite !ring_slice_lookup by lia. rewrite Hl. apply H. lia.
Qed.

(** ** Calls on a well-formed buffer, in terms of its contents *)

Lemma rb_wf_set_tail b t : rb_wf b -> 0 <= t < len b -> rb_wf (set_tail t b).
Proof. intros [] Ht. now constructor. Qed.

Lemma rb_wf_set_overflow b o : rb_wf b -> rb_wf (set_overflow o b).
Proof. intros []. now constructor. Qed.

Lemma rb_wf_set_head b h l :
  rb_wf b -> 0 <= h < len b -> length l = length (buffer b) ->
  rb_wf (set_head h (set_buffer l b)).
Proof. intros [] Hh Hl. constructor; simpl; auto. now rewrite Hl. Qed.

Lemma contents_length b : rb_wf b -> length (contents b) = Z.to_nat (rb_getused_m b).
Proof.
  intros Hwf. pose proof (rb_getused_m_range b Hwf).
  pose proof (wf_tail b Hwf). pose proof (wf_buffer b Hwf).
  apply ring_slice_length; lia.
Qed.

(** A read of [n < len] bytes copies out the [read_count] oldest bytes, in
    order, leaves the rest of the destination alone and removes them from
    the contents. *)
Lemma ringbuf_read_contents b dest n :
  rb_wf b -> 0 <= n < len b ->
  read_count b n <= Z.of_nat (length dest) ->
  exists b' d',
    ringbuf_read b dest n = Some (0, b', d')
    /\ rb_wf b'
    /\ b' = set_tail ((tail b + read_count b n) mod len b) b
    /\ d' = take (Z.to_nat (read_count b n)) (contents b)
            ++ drop (Z.to_nat (read_count b n)) dest
    /\ rb_getused_m b' = rb_getused_m b - read_count b n
    /\ contents b' = drop (Z.to_nat (read_count b n)) (contents b).
Proof.
  intros Hwf Hn Hdest.
  pose proof (wf_len_range b Hwf) as Hlen.
  pose proof (wf_tail b Hwf) as Ht. pose proof (wf_head b Hwf) as Hh.
  pose proof (wf_buffer b Hwf) as Hbuf.
  pose proof (rb_getused_m_range b Hwf) as Hused.
  pose proof (read_count_range b n Hwf ltac:(lia)) as Hm.
  pose proof (Z.mod_pos_bound (tail b + read_count b n) (len b) ltac:(lia)) as Hb.
  assert (Hwf' : rb_wf (set_tail ((tail b + read_count b n) mod len b) b))
    by now apply rb_wf_set_tail.
  assert (Hused' : rb_getused_m (set_tail ((tail b + read_count b n) mod len b) b)
                   = rb_getused_m b - read_count b n).
  { rewrite (rb_getused_m_wf _ Hwf'). simpl.
    rewrite (rb_getused_m_wf b Hwf) in *.
    rewrite (mod_range (len b) (tail b + read_count b n)) in * by lia.
    mod_cases; repeat match goal with
                      | |- context [?x <=? ?y] => destruct (Z.leb_spec x y)
                      | H : context [?x <=? ?y] |- _ => destruct (Z.leb_spec x y)
                      end; lia. }
  eexists _, _. split; [now apply ringbuf_read_wf|].
  split; [assumption|]. split; [reflexivity|]. split; [|split; [assumption|]].
  - f_equal. unfold contents. rewrite ring_slice_take by lia. reflexivity.
  - unfold contents at 1. rewrite Hused'. simpl.
    unfold contents. rewrite ring_slice_drop by lia. now rewrite Hbuf.
Qed.

(** A write of [n < len] bytes that the free-space guard lets through
    appends them to the contents when it leaves a slot of the array unused;
    when it fills the array, [head] lands on [tail] and the contents are
    empty. *)
Lemma ringbuf_write_contents b data n :
  rb_wf b -> 0 <= n < len b -> n <= rb_getfree_m b ->
  n <= Z.of_nat (length data) ->
  exists b',
    ringbuf_write b data n = Some (0, b')
    /\ rb_wf b'
    /\ head b' = (head b + n) mod len b
    /\ tail b' = tail b /\ len b' = len b /\ overflow b' = overflow b
    /\ rb_getused_m b'
       = (if rb_getused_m b + n <? len b then rb_getused_m b + n else 0)
    /\ contents b'
       = (if rb_getused_m b + n <? len b
          then contents b ++ take (Z.to_nat n) data else []).
Proof.
  intros Hwf Hn Hfree Hdata.
  pose proof (wf_len_range b Hwf) as Hlen.
  pose proof (wf_tail b Hwf) as Ht. pose proof (wf_head b Hwf) as Hh.
  pose proof (wf_buffer b Hwf) as Hbuf.
  pose proof (rb_getused_m_range b Hwf) as Hused.
  pose proof (Z.mod_pos_bound (head b + n) (len b) ltac:(lia)) as Hb.
  destruct (ringbuf_write_wf b data n Hwf Hn Hfree Hdata)
    as (buf' & Hw & Hlen' & Hcells).
  set (b' := set_head ((head b + n) mod len b) (set_buffer buf' b)) in *.
  assert (Hwf' : rb_wf b') by now apply rb_wf_set_head.
  rewrite (rb_getfree_m_wf b Hwf) in Hfree.
  assert (Hused' : rb_getused_m b'
                   = if rb_getused_m b + n <? len b then rb_getused_m b + n else 0).
  { rewrite (rb_getused_m_wf _ Hwf'). simpl.
    rewrite (rb_getused_m_wf b Hwf) in *.
    rewrite (mod_range (len b) (head b + n)) in * by lia.
    mod_cases; repeat match goal with
                      | |- context [?x <=? ?y] => destruct (Z.leb_spec x y)
                      | H : context [?x <=? ?y] |- _ => destruct (Z.leb_spec x y)
                      end; lia. }
  exists b'. repeat (split; [first [assumption | reflexivity]|]).
  unfold contents at 1. rewrite Hused'. simpl.
  destruct (Z.ltb_spec (rb_getused_m b + n) (len b)) as [Hroom|Hfull];
    [|reflexivity].
  assert (Hhead : (tail b + rb_getused_m b) mod Z.of_nat (length buf') = head b).
  { rewrite Hlen', Hbuf. rewrite (rb_getused_m_wf b Hwf).
    destruct (Z.leb_spec (tail b) (head b)).
    - rewrite Z.mod_small; lia.
    - replace (tail b + (head b - tail b + len b)) with (head b + 1 * len b) by lia.
      rewrite Z.mod_add by lia. apply Z.mod_small; lia. }
  rewrite ring_slice_app by lia. rewrite Hhead. f_equal.
  - apply ring_slice_ext; try lia. intros k Hk.
    rewrite Hbuf.
    pose proof (Z.mod_pos_bound (tail b + Z.of_nat k) (len b) ltac:(lia)) as Hc.
    rewrite Hcells by lia. rewrite Z2Nat.id by lia.
    rewrite Zminus_mod_idemp_l.
    rewrite (rb_getused_m_wf b Hwf) in *.
    destruct (Z.leb_spec (tail b) (head b));
      rewrite (mod_range (len b) (tail b + Z.of_nat k - head b)) by lia;
      mod_cases; try lia; reflexivity.
  - apply (list_eq_upto _ _ (Z.to_nat n)).
    + apply ring_slice_length; lia.
    + rewrite length_take. lia.
    + intros k Hk. rewrite ring_slice_lookup by lia.
      rewrite lookup_take_lt by lia. rewrite Hlen', Hbuf.
      pose proof (Z.mod_pos_bound (head b + Z.of_nat k) (len b) ltac:(lia)) as Hc.
      rewrite Hcells by lia. rewrite Z2Nat.id by lia.
      rewrite Zminus_mod_idemp_l.
      replace (head b + Z.of_nat k - head b) with (Z.of_nat k) by lia.
      rewrite Z.mod_small by lia.
      destruct (Z.ltb_spec (Z.of_nat k) n); [|lia].
      f_equal. lia.
Qed.

(** ** The guards of [ringbuf_write] *)

(** C4: a write of [n >= len] bytes fails (returns 1) whatever the state of
    the buffer, and the buffer after the call is the buffer before it:
    [head], [tail], the overflow flag and the stored bytes are untouched. *)
Theorem ringbuf_write_too_large (b : RingBuffer) (data : list byte) (n : Z) :
  len b <= n -> ringbuf_write b data n = Some (1, b).
Proof.
  intros Hn. unfold ringbuf_write.
  destruct (Z.leb_spec (len b) n); [reflexivity|lia].
Qed.

Lemma ringbuf_write_too_large_witness :
  len (mkRingBuffer [x61; x62; x63; x64] 3 1 4 3 0) <= 4
  /\ ringbuf_write (mkRingBuffer [x61; x62; x63; x64] 3 1 4 3 0)
       [x01; x02; x03; x04] 4
     = Some (1, mkRingBuffer [x61; x62; x63; x64] 3 1 4 3 0).
Proof.
  split; [simpl; lia|].
  apply ringbuf_write_too_large. simpl. lia.
Defined.

(** C3: a write of [n] bytes with [rb_getfree_m(buf) < n <= len - 1] fails
    (returns 1) and sets the overflow flag; [head] and [tail] keep their
    values and not one byte is stored. *)
Theorem ringbuf_write_overflow (b : RingBuffer) (data : list byte) (n : Z) :
  rb_getfree_m b < n -> n <= len b - 1 ->
  exists b',
    ringbuf_write b data n = Some (1, b')
    /\ overflow b' = 1
    /\ head b' = head b /\ tail b' = tail b /\ buffer b' = buffer b
    /\ len b' = len b /\ mask b' = mask b.
Proof.
  intros Hfree Hn. exists (set_overflow 1 b). unfold ringbuf_write.
  destruct (Z.leb_spec (len b) n); [lia|].
  destruct (Z.ltb_spec (rb_getfree_m b) n); [|lia].
  repeat split.
Qed.

Lemma ringbuf_write_overflow_witness :
  rb_getfree_m (mkRingBuffer (replicate 8 x00) 5 0 8 7 0) < 4
  /\ 4 <= len (mkRingBuffer (replicate 8 x00) 5 0 8 7 0) - 1
  /\ exists b',
       ringbuf_write (mkRingBuffer (replicate 8 x00) 5 0 8 7 0)
         [x01; x02; x03; x04] 4 = Some (1, b')
       /\ overflow b' = 1
       /\ head b' = 5 /\ tail b' = 0 /\ buffer b' = replicate 8 x00
       /\ len b' = 8 /\ mask b' = 7.
Proof.
  split; [vm_compute; reflexivity|]. split; [vm_compute; discriminate|].
  apply (ringbuf_write_overflow (mkRingBuffer (replicate 8 x00) 5 0 8 7 0)).
  - vm_compute. reflexivity.
  - vm_compute. discriminate.
Defined.

(** ** Occupancy and free space *)

Lemma sd_setup_ringbuf_wf (ringbuf : list byte) (k : Z) :
  0 <= k <= 15 -> Z.of_nat (length ringbuf) = 2 ^ k ->
  rb_wf (sd_setup_ringbuf ringbuf (2 ^ k)).
Proof.
  intros Hk Hl.
  assert (0 < 2 ^ k <= 32768).
  { split; [apply Z.pow_pos_nonneg; lia|].
    change 32768 with (2 ^ 15). apply Z.pow_le_mono_r; lia. }
  constructor; simpl; try lia.
  - now exists k.
  - apply u16_id. lia.
Qed.

Lemma rb_used_plus_free (b : RingBuffer) :
  rb_wf b -> rb_getused_m b + rb_getfree_m b = len b.
Proof. intros Hwf. rewrite (rb_getfree_m_wf b Hwf). lia. Qed.

(** ** Reading more than the buffer holds *)

Lemma tail_plus_used b :
  rb_wf b -> (tail b + rb_getused_m b) mod len b = head b.
Proof.
  intros Hwf. pose proof (wf_len_range b Hwf).
  pose proof (wf_tail b Hwf). pose proof (wf_head b Hwf).
  rewrite (rb_getused_m_wf b Hwf).
  destruct (Z.leb_spec (tail b) (head b)).
  - rewrite Z.mod_small; lia.
  - replace (tail b + (head b - tail b + len b)) with (head b + 1 * len b) by lia.
    rewrite Z.mod_add by lia. apply Z.mod_small; lia.
Qed.

(** C5: a read of [n] bytes with [rb_getused_m(buf) < n < len] succeeds
    (returns 0); it copies out exactly the [rb_getused_m(buf)] unread
    bytes, oldest first, to the front of the destination, leaves the rest
    of the destination alone and advances [tail] by that many places,
    which empties the buffer. *)
Theorem ringbuf_read_past_occupancy (b : RingBuffer) (dest : list byte) (n : Z) :
  rb_wf b -> rb_getused_m b < n -> n < len b ->
  rb_getused_m b <= Z.of_nat (length dest) ->
  exists b' dest',
    ringbuf_read b dest n = Some (0, b', dest')
    /\ length (contents b) = Z.to_nat (rb_getused_m b)
    /\ dest' = contents b ++ drop (Z.to_nat (rb_getused_m b)) dest
    /\ tail b' = (tail b + rb_getused_m b) mod len b
    /\ head b' = head b /\ buffer b' = buffer b /\ overflow b' = overflow b
    /\ rb_getused_m b' = 0.
Proof.
  intros Hwf Hlo Hhi Hdest.
  pose proof (rb_getused_m_range b Hwf) as Hused.
  assert (Hm : read_count b n = rb_getused_m b).
  { unfold read_count. destruct (Z.leb_spec (len b) n); [lia|].
    destruct (Z.ltb_spec (rb_getused_m b) n); lia. }
  destruct (ringbuf_read_contents b dest n Hwf ltac:(lia) ltac:(lia))
    as (b' & d' & Hr & Hwf' & -> & -> & Hu & Hc).
  rewrite Hm in *. eexists _, _. split; [exact Hr|].
  split; [now apply contents_length|].
  split; [|repeat split; simpl; lia].
  f_equal. apply take_ge. rewrite contents_length by assumption. lia.
Qed.

Lemma ringbuf_read_past_occupancy_witness :
  let b := mkRingBuffer [x61; x62; x63; x64] 1 3 4 3 0 in
  let dest := [x00; x00; x00] in
  rb_wf b /\ rb_getused_m b < 3 /\ 3 < len b
  /\ rb_getused_m b <= Z.of_nat (length dest)
  /\ exists b' dest',
       ringbuf_read b dest 3 = Some (0, b', dest')
       /\ length (contents b) = Z.to_nat (rb_getused_m b)
       /\ dest' = contents b ++ drop (Z.to_nat (rb_getused_m b)) dest
       /\ tail b' = (tail b + rb_getused_m b) mod len b
       /\ head b' = head b /\ buffer b' = buffer b /\ overflow b' = overflow b
       /\ rb_getused_m b' = 0.
Proof.
  intros b dest.
  assert (Hwf : rb_wf b).
  { constructor; simpl; try lia. exists 2. split; [lia|reflexivity]. }
  assert (H1 : rb_getused_m b < 3) by (vm_compute; reflexivity).
  assert (H2 : 3 < len b) by (vm_compute; reflexivity).
  assert (H3 : rb_getused_m b <= Z.of_nat (length dest))
    by (vm_compute; discriminate).
  repeat (split; [assumption|]).
  exact (ringbuf_read_past_occupancy b dest 3 Hwf H1 H2 H3).
Defined.

(** ** Callers only see the cursors, the flag and the unread bytes *)

Lemma ringbuf_write_reject b data n :
  len b <= n -> ringbuf_write b data n = Some (1, b).
Proof.
  intros H. unfold ringbuf_write.
  destruct (Z.leb_spec (len b) n); [reflexivity|lia].
Qed.

Lemma ringbuf_write_no_room b data n :
  n < len b -> rb_getfree_m b < n ->
  ringbuf_write b data n = Some (1, set_overflow 1 b).
Proof.
  intros H1 H2. unfold ringbuf_write.
  destruct (Z.leb_spec (len b) n); [lia|].
  destruct (Z.ltb_spec (rb_getfree_m b) n); [reflexivity|lia].
Qed.

Lemma ringbuf_read_too_large b dest n :
  len b <= n -> ringbuf_read b dest n = Some (1, b, dest).
Proof.
  intros H. unfold ringbuf_read.
  destruct (Z.leb_spec (len b) n); [reflexivity|lia].
Qed.

Lemma same_view_refl b : rb_wf b -> same_view b b.
Proof. intros H. now repeat apply conj. Qed.

Lemma same_view_counts b1 b2 :
  same_view b1 b2 ->
  rb_getused_m b1 = rb_getused_m b2 /\ rb_getfree_m b1 = rb_getfree_m b2
  /\ forall n, read_count b1 n = read_count b2 n.
Proof.
  intros (_ & _ & Hh & Ht & Hl & _ & _).
  unfold read_count, rb_getused_m, rb_getfree_m. rewrite Hh, Ht, Hl. auto.
Qed.

Lemma rb_step_same_view b1 b2 o :
  same_view b1 b2 -> op_fits o ->
  exists b1' b2' r,
    rb_step b1 o = Some (b1', r) /\ rb_step b2 o = Some (b2', r)
    /\ same_view b1' b2'.
Proof.
  intros Hsv Hfit.
  destruct (same_view_counts b1 b2 Hsv) as (Hu & Hf & Hrc).
  destruct Hsv as (Hwf1 & Hwf2 & Hh & Ht & Hl & Ho & Hc).
  destruct o as [data n|dest n]; simpl in Hfit; simpl.
  - destruct (Z.le_gt_cases (len b1) n) as [Hbig|Hsmall].
    + rewrite !ringbuf_write_reject by lia. simpl.
      eexists _, _, _. repeat apply conj; try reflexivity; assumption.
    + destruct (Z.lt_ge_cases (rb_getfree_m b1) n) as [Hno|Hroom].
      * rewrite !ringbuf_write_no_room by lia. simpl.
        eexists _, _, _. do 2 (split; [reflexivity|]).
        repeat apply conj; try assumption; try reflexivity;
          now apply rb_wf_set_overflow.
      * destruct (ringbuf_write_contents b1 data n Hwf1)
          as (b1' & -> & Hwf1' & Hh1 & Ht1 & Hl1 & Ho1 & _ & Hc1); try lia.
        destruct (ringbuf_write_contents b2 data n Hwf2)
          as (b2' & -> & Hwf2' & Hh2 & Ht2 & Hl2 & Ho2 & _ & Hc2); try lia.
        simpl. eexists _, _, _. do 2 (split; [reflexivity|]).
        repeat apply conj; try assumption; try congruence.
        rewrite Hc1, Hc2. now rewrite Hu, Hl, Hc.
  - destruct (Z.le_gt_cases (len b1) n) as [Hbig|Hsmall].
    + rewrite !ringbuf_read_too_large by lia. simpl. rewrite Hrc.
      eexists _, _, _. repeat apply conj; try reflexivity; assumption.
    + pose proof (read_count_range b1 n Hwf1 ltac:(lia)) as Hm1.
      destruct (ringbuf_read_contents b1 dest n Hwf1)
        as (b1' & d1 & -> & Hwf1' & -> & -> & Hu1 & Hc1); try lia.
      destruct (ringbuf_read_contents b2 dest n Hwf2)
        as (b2' & d2 & -> & Hwf2' & -> & -> & Hu2 & Hc2);
        try (rewrite <- ?Hrc; lia).
      simpl. rewrite <- !Hrc, Hc. eexists _, _, _. do 2 (split; [reflexivity|]).
      repeat apply conj; simpl; try assumption; try congruence.
Qed.

Lemma rb_run_same_view ops : forall b1 b2,
  same_view b1 b2 -> Forall op_fits ops ->
  exists b1' b2' rs,
    rb_run b1 ops = Some (b1', rs) /\ rb_run b2 ops = Some (b2', rs)
    /\ same_view b1' b2'.
Proof.
  induction ops as [|o ops IH]; intros b1 b2 Hsv Hfit; simpl.
  - eexists _, _, _. repeat apply conj; try reflexivity; apply Hsv.
  - inversion Hfit as [|? ? Ho Hops]; subst.
    destruct (rb_step_same_view b1 b2 o Hsv Ho)
      as (c1 & c2 & r & Hs1 & Hs2 & Hsv').
    destruct (IH c1 c2 Hsv' Hops) as (d1 & d2 & rs & Hr1 & Hr2 & Hsv'').
    rewrite Hs1, Hs2. simpl. rewrite Hr1, Hr2. simpl. eexists _, _, _. repeat apply conj; try reflexivity; apply Hsv''.
Qed.

(** Calls that stay within their arrays are defined and keep the buffer
    well-formed. *)
Lemma rb_run_total b ops :
  rb_wf b -> Forall op_fits ops ->
  exists b' rs, rb_run b ops = Some (b', rs) /\ rb_wf b'.
Proof.
  intros Hwf Hfit.
  destruct (rb_run_same_view ops b b (same_view_refl b Hwf) Hfit)
    as (b' & b2 & rs & Hr & _ & Hsv).
  exists b', rs. split; [assumption|apply Hsv].
Qed.

(** ** A write of exactly the reported free space *)

Lemma contents_empty b : rb_getused_m b = 0 -> contents b = [].
Proof. intros H. unfold contents. rewrite H. reflexivity. Qed.

Lemma ringbuf_read_empty b dest m :
  rb_wf b -> rb_getused_m b = 0 -> 0 <= m ->
  exists r, ringbuf_read b dest m = Some (r, b, dest).
Proof.
  intros Hwf Hu Hm. pose proof (wf_tail b Hwf) as Ht.
  destruct (Z.le_gt_cases (len b) m) as [Hbig|Hsmall].
  - exists 1. now apply ringbuf_read_too_large.
  - pose proof (read_count_range b m Hwf Hm) as Hrc.
    assert (Hz : read_count b m = 0) by lia.
    destruct (ringbuf_read_contents b dest m Hwf ltac:(lia) ltac:(lia))
      as (b' & d' & Hr & _ & -> & -> & _).
    exists 0. rewrite Hr, Hz. rewrite Z.add_0_r, Z.mod_small by lia.
    simpl. rewrite drop_0. destruct b; reflexivity.
Qed.

(** C10: on a buffer that is not empty, a write of exactly
    [rb_getfree_m(buf)] bytes succeeds and leaves [head == tail];
    [rb_getused_m] then reports 0 and [rb_getfree_m] the whole length; a
    read that follows copies nothing, and whatever is stored in the array
    at that point, the bytes just written included, has no influence on
    the result of any later sequence of calls. *)
Theorem write_of_free_space_empties (b : RingBuffer) (data : list byte) :
  rb_wf b -> head b <> tail b ->
  rb_getfree_m b <= Z.of_nat (length data) ->
  exists b',
    ringbuf_write b data (rb_getfree_m b) = Some (0, b')
    /\ head b' = tail b'
    /\ rb_getused_m b' = 0
    /\ rb_getfree_m b' = len b' /\ len b' = len b
    /\ (forall dest m, 0 <= m ->
          exists r, ringbuf_read b' dest m = Some (r, b', dest))
    /\ (forall junk ops,
          length junk = length (buffer b') -> Forall op_fits ops ->
          exists b1 b2 rs,
            rb_run b' ops = Some (b1, rs)
            /\ rb_run (set_buffer junk b') ops = Some (b2, rs)).
Proof.
  intros Hwf Hne Hdata.
  pose proof (rb_getused_m_range b Hwf) as Hused.
  pose proof (rb_getused_m_zero b Hwf) as Hzero.
  pose proof (rb_getfree_m_wf b Hwf) as Hfree.
  destruct (ringbuf_write_contents b data (rb_getfree_m b) Hwf)
    as (b' & Hw & Hwf' & Hh & Ht & Hl & Ho & Hu & Hc); try lia.
  assert (Hu' : rb_getused_m b' = 0).
  { rewrite Hu. destruct (Z.ltb_spec (rb_getused_m b + rb_getfree_m b) (len b));
      [lia|reflexivity]. }
  exists b'. split; [exact Hw|].
  split; [now apply (rb_getused_m_zero b' Hwf')|].
  split; [exact Hu'|].
  split; [rewrite (rb_getfree_m_wf b' Hwf'); lia|].
  split; [exact Hl|]. split.
  - intros dest m Hm. now apply ringbuf_read_empty.
  - intros junk ops Hjunk Hfit.
    assert (Hsv : same_view b' (set_buffer junk b')).
    { assert (Hwfj : rb_wf (set_buffer junk b')).
      { destruct Hwf'. constructor; simpl; auto. now rewrite Hjunk. }
      repeat apply conj; try assumption; try reflexivity.
      rewrite !contents_empty; auto. }
    destruct (rb_run_same_view ops _ _ Hsv Hfit) as (b1 & b2 & rs & H1 & H2 & _).
    now exists b1, b2, rs.
Qed.

Lemma write_of_free_space_empties_witness :
  let b := mkRingBuffer [x61; x00; x00; x00] 1 0 4 3 0 in
  let data := [x62; x63; x64] in
  rb_wf b /\ head b <> tail b /\ rb_getfree_m b <= Z.of_nat (length data)
  /\ exists b',
       ringbuf_write b data (rb_getfree_m b) = Some (0, b')
       /\ head b' = tail b'
       /\ rb_getused_m b' = 0
       /\ rb_getfree_m b' = len b' /\ len b' = len b
       /\ (forall dest m, 0 <= m ->
             exists r, ringbuf_read b' dest m = Some (r, b', dest))
       /\ (forall junk ops,
             length junk = length (buffer b') -> Forall op_fits ops ->
             exists b1 b2 rs,
               rb_run b' ops = Some (b1, rs)
               /\ rb_run (set_buffer junk b') ops = Some (b2, rs)).
Proof.
  intros b data.
  assert (Hwf : rb_wf b).
  { constructor; simpl; try lia. exists 2. split; [lia|reflexivity]. }
  assert (H1 : head b <> tail b) by (vm_compute; discriminate).
  assert (H2 : rb_getfree_m b <= Z.of_nat (length data))
    by (vm_compute; discriminate).
  repeat (split; [assumption|]).
  exact (write_of_free_space_empties b data Hwf H1 H2).
Defined.

(** The call of the witness above, evaluated: the three bytes are stored,
    [head] comes round to [tail], and the four bytes in the array are out of
    reach. *)
Example write_of_free_space_run :
  rb_run (mkRingBuffer [x61; x00; x00; x00] 1 0 4 3 0)
    [OpWrite [x62; x63; x64] 3; OpRead [x00; x00; x00] 3]
  = Some (mkRingBuffer [x61; x62; x63; x64] 0 0 4 3 0,
          [ResWrite 0; ResRead 0 []]).
Proof. reflexivity. Qed.

(** ** First in, first out *)

(** X1: as long as every write leaves one slot of the array unused and
    every read asks for fewer bytes than the array is long, every call
    succeeds and the bytes come out as they went in: what was unread
    before, followed by what the writes supplied, is what the reads
    returned, followed by what is still unread. *)
Theorem ringbuf_fifo_reserved_slot (ops : list rb_op) : forall b : RingBuffer,
  rb_wf b -> reserved_slot_ok b ops ->
  exists b' rs,
    rb_run b ops = Some (b', rs)
    /\ rb_wf b'
    /\ Forall (fun r => ret_of r = 0) rs
    /\ contents b ++ bytes_written ops = bytes_read rs ++ contents b'.
Proof.
  induction ops as [|o ops IH]; intros b Hwf Hok.
  - exists b, []. simpl. repeat apply conj; auto. now rewrite app_nil_r.
  - destruct Hok as [Ho Hnext].
    pose proof (rb_getused_m_range b Hwf) as Hused.
    pose proof (rb_getfree_m_wf b Hwf) as Hfree.
    destruct o as [data n|dest n].
    + destruct Ho as [Hn Hroom].
      destruct (ringbuf_write_contents b data n Hwf)
        as (b1 & Hw & Hwf1 & _ & _ & _ & _ & _ & Hc1); try lia.
      destruct (Z.ltb_spec (rb_getused_m b + n) (len b)); [|lia].
      assert (Hs : rb_step b (OpWrite data n) = Some (b1, ResWrite 0))
        by (simpl; now rewrite Hw).
      destruct (IH b1 Hwf1 (Hnext _ _ Hs)) as (b' & rs & Hr & Hwf' & Hrets & Hfifo).
      exists b', (ResWrite 0 :: rs).
      change (rb_run b (OpWrite data n :: ops))
        with (rb_step b (OpWrite data n) ≫= fun '(b1, r) =>
              rb_run b1 ops ≫= fun '(b2, rs) => Some (b2, r :: rs)).
      rewrite Hs. simpl. rewrite Hr. simpl.
      repeat apply conj; auto.
      unfold bytes_written in *. simpl. unfold bytes_read in *. simpl.
      rewrite app_assoc, <- Hc1. exact Hfifo.
    + destruct Ho as [Hn Hdest].
      pose proof (read_count_range b n Hwf ltac:(lia)) as Hm.
      destruct (ringbuf_read_contents b dest n Hwf Hn Hdest)
        as (b1 & d1 & Hrd & Hwf1 & _ & Hd1 & _ & Hc1).
      set (m := Z.to_nat (read_count b n)) in *.
      assert (Hs : rb_step b (OpRead dest n)
                   = Some (b1, ResRead 0 (take m (contents b)))).
      { simpl. rewrite Hrd. simpl. do 3 f_equal. rewrite Hd1. fold m.
        pose proof (contents_length b Hwf) as Hcl.
        rewrite take_app_le by (rewrite length_take; unfold m; lia).
        rewrite take_take. f_equal. lia. }
      destruct (IH b1 Hwf1 (Hnext _ _ Hs)) as (b' & rs & Hr & Hwf' & Hrets & Hfifo).
      exists b', (ResRead 0 (take m (contents b)) :: rs).
      change (rb_run b (OpRead dest n :: ops))
        with (rb_step b (OpRead dest n) ≫= fun '(b1, r) =>
              rb_run b1 ops ≫= fun '(b2, rs) => Some (b2, r :: rs)).
      rewrite Hs. simpl. rewrite Hr. simpl.
      repeat apply conj; auto.
      unfold bytes_written in *. simpl. unfold bytes_read in *. simpl.
      rewrite <- app_assoc, <- Hfifo, Hc1, app_assoc, take_drop. reflexivity.
Qed.

(** C1 (where the code departs from it): on a four-byte array every call
    below passes the guards of [ringbuf_write] and [ringbuf_read] and
    returns 0, yet of the five bytes written only the last is ever read;
    the second write, of exactly the reported free space, brings [head]
    round to [tail] and the first four bytes are gone. *)
Theorem fifo_lost_when_write_fills_array :
  let ops := [OpWrite [x61] 1; OpWrite [x62; x63; x64] 3;
              OpRead [x00; x00; x00] 3; OpWrite [x65] 1; OpRead [x00] 1] in
  exists b' rs,
    rb_run (sd_setup_ringbuf (replicate 4 x00) 4) ops = Some (b', rs)
    /\ Forall (fun r => ret_of r = 0) rs
    /\ bytes_written ops = [x61; x62; x63; x64; x65]
    /\ bytes_read rs = [x65]
    /\ contents b' = [].
Proof.
  intros ops. eexists _, _. split; [vm_compute; reflexivity|].
  split; [repeat constructor|]. repeat split.
Qed.

(** ** Retry loops *)

Section Retry.
Variable before : FRESULT -> list io.
Variable call : FRESULT -> io.
Variable after : list io.
Hypothesis before_quiet : forall fr, storage_calls (before fr) = [].
Hypothesis after_quiet : storage_calls after = [].
Hypothesis call_storage : forall fr, is_storage_call (call fr) = true.

Lemma storage_calls_app t1 t2 :
  storage_calls (t1 ++ t2) = storage_calls t1 ++ storage_calls t2.
Proof. apply List.filter_app. Qed.

Lemma storage_calls_call fr t :
  storage_calls (call fr :: t) = call fr :: storage_calls t.
Proof. unfold storage_calls. simpl. now rewrite call_storage. Qed.

(** As soon as an answer is [FR_OK] the loop is left, after exactly the
    calls answered so far. *)
Lemma retry_loop_succeeds fails rest : forall fr,
  fr <> FR_OK -> Forall (fun r => r <> FR_OK) fails ->
  exists t,
    retry_loop before call after fr (fails ++ FR_OK :: rest) = (true, t)
    /\ storage_calls t = map call (fails ++ [FR_OK]).
Proof.
  induction fails as [|f fails IH]; intros fr Hfr Hfails; simpl.
  - destruct (Z.eqb_spec fr FR_OK); [contradiction|].
    destruct rest; simpl; eexists; (split; [reflexivity|]);
      rewrite storage_calls_app, storage_calls_call, before_quiet,
        storage_calls_app, after_quiet; reflexivity.
  - inversion Hfails as [|? ? Hf Hfs]; subst.
    destruct (Z.eqb_spec fr FR_OK); [contradiction|].
    destruct (IH f Hf Hfs) as (t & -> & Ht).
    eexists. split; [reflexivity|].
    rewrite storage_calls_app, storage_calls_call, before_quiet,
      storage_calls_app, after_quiet, Ht. reflexivity.
Qed.

Lemma retry_succeeds fails rest :
  Forall (fun r => r <> FR_OK) fails ->
  exists t,
    retry before call after (fails ++ FR_OK :: rest) = (true, t)
    /\ storage_calls t = map call (fails ++ [FR_OK]).
Proof.
  intros Hfails. destruct fails as [|f fails]; simpl.
  - destruct rest; simpl; eexists; (split; [reflexivity|]);
      now rewrite storage_calls_call.
  - inversion Hfails as [|? ? Hf Hfs]; subst.
    destruct (retry_loop_succeeds fails rest f Hf Hfs) as (t & -> & Ht).
    eexists. split; [reflexivity|].
    rewrite storage_calls_call, Ht. reflexivity.
Qed.

(** While every answer is a failure the loop is not left. *)
Lemma retry_loop_blocked rs : forall fr,
  fr <> FR_OK -> Forall (fun r => r <> FR_OK) rs ->
  exists t,
    retry_loop before call after fr rs = (false, t)
    /\ storage_calls t = map call rs.
Proof.
  induction rs as [|f rs IH]; intros fr Hfr Hrs; simpl.
  - destruct (Z.eqb_spec fr FR_OK); [contradiction|].
    eexists. split; [reflexivity|]. apply before_quiet.
  - inversion Hrs as [|? ? Hf Hfs]; subst.
    destruct (Z.eqb_spec fr FR_OK); [contradiction|].
    destruct (IH f Hf Hfs) as (t & -> & Ht).
    eexists. split; [reflexivity|].
    rewrite storage_calls_app, storage_calls_call, before_quiet,
      storage_calls_app, after_quiet, Ht. reflexivity.
Qed.

Lemma retry_blocked rs :
  Forall (fun r => r <> FR_OK) rs ->
  exists t,
    retry before call after rs = (false, t)
    /\ storage_calls t = map call rs.
Proof.
  intros Hrs. destruct rs as [|f rs]; simpl.
  - eexists. split; reflexivity.
  - inversion Hrs as [|? ? Hf Hfs]; subst.
    destruct (retry_loop_blocked rs f Hf Hfs) as (t & -> & Ht).
    eexists. split; [reflexivity|].
    rewrite storage_calls_call, Ht. reflexivity.
Qed.
End Retry.

(** A list of answers either has a first [FR_OK] or has none. *)
Lemma first_ok (rs : list FRESULT) :
  (exists fails rest,
      rs = fails ++ FR_OK :: rest /\ Forall (fun r => r <> FR_OK) fails)
  \/ Forall (fun r => r <> FR_OK) rs.
Proof.
  induction rs as [|r rs IH].
  - right. constructor.
  - destruct (Z.eq_dec r FR_OK) as [->|Hr].
    + left. exists [], rs. split; [reflexivity|constructor].
    + destruct IH as [(fails & rest & -> & Hf)|Hall].
      * left. exists (r :: fails), rest. split; [reflexivity|now constructor].
      * right. now constructor.
Qed.

Lemma open_retry_succeeds fails rest :
  Forall (fun r => r <> FR_OK) fails ->
  exists t, open_retry (fails ++ FR_OK :: rest) = (true, t)
            /\ storage_calls t = map EOpen (fails ++ [FR_OK]).
Proof. now apply retry_succeeds. Qed.

Lemma close_retry_succeeds fails rest :
  Forall (fun r => r <> FR_OK) fails ->
  exists t, close_retry (fails ++ FR_OK :: rest) = (true, t)
            /\ storage_calls t = map EClose (fails ++ [FR_OK]).
Proof. now apply retry_succeeds. Qed.

Lemma close_retry_blocked rs :
  Forall (fun r => r <> FR_OK) rs ->
  exists t, close_retry rs = (false, t) /\ storage_calls t = map EClose rs.
Proof. now apply retry_blocked. Qed.

(** ** The overflow flag *)

Lemma ringbuf_write_overflow_flag b data n r b' :
  ringbuf_write b data n = Some (r, b') ->
  overflow b'
  = if (n <? len b) && (rb_getfree_m b <? n) then 1 else overflow b.
Proof.
  unfold ringbuf_write.
  destruct (Z.leb_spec (len b) n); destruct (Z.ltb_spec n (len b)); try lia;
    simpl.
  - intros [= <- <-]. reflexivity.
  - destruct (Z.ltb_spec (rb_getfree_m b) n); [intros [= <- <-]; reflexivity|].
    destruct (u16 (head b + n) <? len b).
    + destruct (memcpy _ _ _ _ _); simpl; [|discriminate].
      intros [= <- <-]. reflexivity.
    + destruct (memcpy _ _ _ _ _); simpl; [|discriminate].
      destruct (memcpy _ _ _ _ _); simpl; [|discriminate].
      intros [= <- <-]. reflexivity.
Qed.

Lemma ringbuf_write_ret b data n r b' :
  ringbuf_write b data n = Some (r, b') ->
  r = if (len b <=? n) || (rb_getfree_m b <? n) then 1 else 0.
Proof.
  unfold ringbuf_write.
  destruct (len b <=? n); simpl; [now intros [= <- <-]|].
  destruct (rb_getfree_m b <? n); [now intros [= <- <-]|].
  destruct (u16 (head b + n) <? len b).
  - destruct (memcpy _ _ _ _ _); simpl; [|discriminate]. now intros [= <- <-].
  - destruct (memcpy _ _ _ _ _); simpl; [|discriminate].
    destruct (memcpy _ _ _ _ _); simpl; [|discriminate]. now intros [= <- <-].
Qed.

Lemma ringbuf_read_frame b dest n r b' d' :
  ringbuf_read b dest n = Some (r, b', d') ->
  overflow b' = overflow b /\ head b' = head b /\ buffer b' = buffer b
  /\ len b' = len b /\ mask b' = mask b.
Proof.
  unfold ringbuf_read.
  destruct (len b <=? n); [now intros [= <- <- <-]|].
  cbv zeta.
  generalize (if rb_getused_m b <? n then rb_getused_m b else n). intros m.
  destruct (u16 (tail b + m) <? len b).
  - destruct (memcpy _ _ _ _ _); simpl; [|discriminate]. now intros [= <- <- <-].
  - destruct (memcpy _ _ _ _ _); simpl; [|discriminate].
    destruct (memcpy _ _ _ _ _); simpl; [|discriminate]. now intros [= <- <- <-].
Qed.

Lemma rb_run_keeps_overflow ops : forall b b' rs,
  rb_run b ops = Some (b', rs) -> overflow b <> 0 -> overflow b' <> 0.
Proof.
  induction ops as [|o ops IH]; intros b b' rs; simpl.
  - now intros [= <- <-].
  - destruct (rb_step b o) as [[b1 r]|] eqn:Hs; simpl; [|discriminate].
    destruct (rb_run b1 ops) as [[b2 rs']|] eqn:Hr; simpl; [|discriminate].
    intros [= <- <-] Hset. apply (IH b1 b2 rs' Hr).
    destruct o as [data n|dest n]; simpl in Hs.
    + destruct (ringbuf_write b data n) as [[r0 b0]|] eqn:Hw; simpl in Hs;
        [|discriminate].
      injection Hs as <- <-.
      rewrite (ringbuf_write_overflow_flag _ _ _ _ _ Hw).
      destruct ((n <? len b) && (rb_getfree_m b <? n)); [lia|assumption].
    + destruct (ringbuf_read b dest n) as [[[r0 b0] d0]|] eqn:Hrd; simpl in Hs;
        [|discriminate].
      injection Hs as <- <-.
      destruct (ringbuf_read_frame _ _ _ _ _ _ Hrd) as (-> & _). assumption.
Qed.

Lemma andthen_Done m f s' t :
  andthen m f = Done s' t ->
  exists s1 t1 t2, m = Done s1 t1 /\ f s1 = Done s' t2 /\ t = t1 ++ t2.
Proof.
  unfold andthen. destruct m as [s1 t1| |]; try discriminate.
  destruct (f s1) as [s2 t2| |] eqn:Hf; try discriminate.
  intros [= <- <-]. now exists s1, t1, t2.
Qed.

(** [sd_write] moves [tail] and fills the scratch array, nothing else. *)
Lemma sd_write_frame fr n s s' t :
  sd_write fr n s = Done s' t ->
  overflow (sdbuf s') = overflow (sdbuf s)
  /\ head (sdbuf s') = head (sdbuf s)
  /\ logger_running s' = logger_running s /\ file_open s' = file_open s
  /\ time s' = time s.
Proof.
  unfold sd_write.
  destruct (ringbuf_read (sdbuf s) (writebuf s) n) as [[[r b'] wb']|] eqn:Hr;
    [|discriminate].
  destruct ((0 <=? n) && (n <=? Z.of_nat (length wb'))); [|discriminate].
  intros [= <- <-]. simpl.
  destruct (ringbuf_read_frame _ _ _ _ _ _ Hr) as (-> & -> & _). auto.
Qed.

Lemma open_on_start_Done o s s' t :
  open_on_start o s = Done s' t ->
  (logger_running s <> 0 /\ file_open s = 0
   /\ s' = set_file_open 1 (set_sdbuf (set_overflow 0 (sdbuf s)) s))
  \/ ((logger_running s = 0 \/ file_open s <> 0) /\ s' = s).
Proof.
  unfold open_on_start.
  destruct (Z.eqb_spec (logger_running s) 0); simpl.
  - intros [= <- <-]. right. auto.
  - destruct (Z.eqb_spec (file_open s) 0).
    + destruct (open_retry (open_rs o)) as [[|] t0]; [|discriminate].
      intros [= <- <-]. left. auto.
    + intros [= <- <-]. right. auto.
Qed.

Lemma close_on_stop_frame o s s' t :
  close_on_stop o s = Done s' t ->
  overflow (sdbuf s') = overflow (sdbuf s)
  /\ head (sdbuf s') = head (sdbuf s)
  /\ logger_running s' = logger_running s /\ time s' = time s.
Proof.
  unfold close_on_stop.
  destruct ((logger_running s =? 0) && negb (file_open s =? 0)).
  - intros H. apply andthen_Done in H as (s1 & t1 & t2 & Hw & Hc & _).
    apply sd_write_frame in Hw as (Ho & Hh & Hr & _ & Ht).
    destruct (close_retry (close_rs o)) as [[|] t0]; [|discriminate].
    injection Hc as <- _. simpl. auto.
  - intros [= <- <-]. auto.
Qed.

Lemma drain_block_frame o s s' t :
  drain_block o s = Done s' t ->
  overflow (sdbuf s') = overflow (sdbuf s)
  /\ head (sdbuf s') = head (sdbuf s)
  /\ logger_running s' = logger_running s /\ file_open s' = file_open s
  /\ time s' = time s.
Proof.
  unfold drain_block.
  destruct ((512 <? rb_getused_m (sdbuf s)) && negb (file_open s =? 0)
            && negb (logger_running s =? 0)).
  - apply sd_write_frame.
  - intros [= <- <-]. auto.
Qed.

Lemma status_refresh_Done o s s' t : status_refresh o s = Done s' t -> s' = s.
Proof.
  unfold status_refresh, then_update_lcd.
  destruct (u32 (lcd_clk o) mod 333 =? 0); [|now intros [= <- <-]].
  destruct (update_lcd o (sdbuf s)); [now intros [= <- <-]|discriminate].
Qed.

(** A pass of the supervisor loop leaves the flag alone unless it opens a
    file, which clears it. *)
Lemma sd_loop_body_overflow o s s' t :
  sd_loop_body o s = Done s' t ->
  (logger_running s <> 0 /\ file_open s = 0 /\ overflow (sdbuf s') = 0)
  \/ overflow (sdbuf s') = overflow (sdbuf s).
Proof.
  unfold sd_loop_body. intros H.
  apply andthen_Done in H as (s3 & t3 & t4 & H & Hst & _).
  apply andthen_Done in H as (s2 & t2 & t5 & H & Hdr & _).
  apply andthen_Done in H as (s1 & t1 & t6 & Hop & Hcl & _).
  apply status_refresh_Done in Hst as ->.
  apply drain_block_frame in Hdr as (-> & _).
  apply close_on_stop_frame in Hcl as (-> & _).
  apply open_on_start_Done in Hop as [(Hr & Hf & ->)|(_ & ->)]; simpl; auto.
Qed.

Lemma PORT1_ISR_sdbuf p1iv clk s :
  sdbuf (fst (PORT1_ISR p1iv clk s)) = sdbuf s
  /\ file_open (fst (PORT1_ISR p1iv clk s)) = file_open s.
Proof.
  unfold PORT1_ISR.
  destruct (negb (Z.land p1iv P1IV_P1IFG7 =? 0) && (250 <? u32 (clk - time s)));
    [|auto].
  destruct (logger_running (set_time clk s) =? 0); auto.
Qed.

Lemma overflow_cleared_only_on_open s e s' t :
  sys_step s e = Done s' t ->
  overflow (sdbuf s) <> 0 -> overflow (sdbuf s') = 0 ->
  exists o, e = Loop o /\ logger_running s <> 0 /\ file_open s = 0.
Proof.
  destruct e as [sample clk|p1iv clk|o]; simpl; intros Hstep Hset Hclr.
  - exfalso. unfold TIMER1_A0_ISR in Hstep.
    destruct (file_open s =? 0); [injection Hstep as <- _; contradiction|].
    destruct (ringbuf_write _ _ _) as [[r b']|] eqn:Hw; [|discriminate].
    injection Hstep as <- _. simpl in Hclr.
    rewrite (ringbuf_write_overflow_flag _ _ _ _ _ Hw) in Hclr.
    destruct (_ && _); [discriminate|contradiction].
  - exfalso. destruct (PORT1_ISR_sdbuf p1iv clk s) as [Hb _].
    destruct (PORT1_ISR p1iv clk s) as [s1 t1]. injection Hstep as <- _.
    simpl in Hb. rewrite Hb in Hclr. contradiction.
  - exists o. split; [reflexivity|].
    apply sd_loop_body_overflow in Hstep as [(Hr & Hf & _)|Heq]; [auto|].
    rewrite Heq in Hclr. contradiction.
Qed.

Lemma overflow_set_only_on_failed_write s e s' t :
  sys_step s e = Done s' t ->
  overflow (sdbuf s) = 0 -> overflow (sdbuf s') <> 0 ->
  exists sample clk,
    e = Tick sample clk /\ file_open s <> 0
    /\ Z.of_nat (length sample) < len (sdbuf s)
    /\ rb_getfree_m (sdbuf s) < Z.of_nat (length sample)
    /\ overflow (sdbuf s') = 1.
Proof.
  destruct e as [sample clk|p1iv clk|o]; simpl; intros Hstep Hclr Hset.
  - exists sample, clk. split; [reflexivity|].
    unfold TIMER1_A0_ISR in Hstep.
    destruct (Z.eqb_spec (file_open s) 0);
      [injection Hstep as <- _; contradiction|].
    destruct (ringbuf_write _ _ _) as [[r b']|] eqn:Hw; [|discriminate].
    injection Hstep as <- _. simpl in *.
    rewrite (ringbuf_write_overflow_flag _ _ _ _ _ Hw) in *.
    destruct (Z.ltb_spec (Z.of_nat (length sample)) (len (sdbuf s)));
      destruct (Z.ltb_spec (rb_getfree_m (sdbuf s)) (Z.of_nat (length sample)));
      simpl in *; try contradiction. auto.
  - exfalso. destruct (PORT1_ISR_sdbuf p1iv clk s) as [Hb _].
    destruct (PORT1_ISR p1iv clk s) as [s1 t1]. injection Hstep as <- _.
    simpl in Hb. rewrite Hb in Hset. contradiction.
  - exfalso.
    apply sd_loop_body_overflow in Hstep as [(_ & _ & Hz)|Heq]; [contradiction|].
    rewrite Heq in Hset. contradiction.
Qed.

(** C6: the overflow flag changes in a write only when the write fails for
    want of free space, which sets it; no read touches it; once set it
    stays set through any sequence of writes and reads; among the steps of
    the logger only a timer tick whose write finds too little free space
    sets it, and only the pass of the supervisor that opens a file for a new
    session ([logger_running] set, [file_open] clear) clears it. *)
Theorem overflow_flag_lifecycle :
  (forall b data n r b',
      ringbuf_write b data n = Some (r, b') -> overflow b' <> overflow b ->
      r = 1 /\ n < len b /\ rb_getfree_m b < n /\ overflow b' = 1)
  /\ (forall b dest n r b' d',
        ringbuf_read b dest n = Some (r, b', d') -> overflow b' = overflow b)
  /\ (forall ops b b' rs,
        rb_run b ops = Some (b', rs) -> overflow b <> 0 -> overflow b' <> 0)
  /\ (forall s e s' t,
        sys_step s e = Done s' t ->
        overflow (sdbuf s) = 0 -> overflow (sdbuf s') <> 0 ->
        exists sample clk,
          e = Tick sample clk /\ file_open s <> 0
          /\ Z.of_nat (length sample) < len (sdbuf s)
          /\ rb_getfree_m (sdbuf s) < Z.of_nat (length sample)
          /\ overflow (sdbuf s') = 1)
  /\ (forall s e s' t,
        sys_step s e = Done s' t ->
        overflow (sdbuf s) <> 0 -> overflow (sdbuf s') = 0 ->
        exists o, e = Loop o /\ logger_running s <> 0 /\ file_open s = 0).
Proof.
  split; [|split; [|split; [|split]]].
  - intros b data n r b' Hw Hne.
    pose proof (ringbuf_write_overflow_flag _ _ _ _ _ Hw) as Ho.
    pose proof (ringbuf_write_ret _ _ _ _ _ Hw) as Hr.
    destruct (Z.ltb_spec n (len b)); destruct (Z.leb_spec (len b) n); try lia;
      destruct (Z.ltb_spec (rb_getfree_m b) n); simpl in *; try congruence.
    auto.
  - intros b dest n r b' d' Hr. now apply ringbuf_read_frame in Hr.
  - intros ops. apply rb_run_keeps_overflow.
  - apply overflow_set_only_on_failed_write.
  - apply overflow_cleared_only_on_open.
Qed.

Lemma overflow_flag_lifecycle_witness :
  let s := mkSys (mkRingBuffer (replicate 8 x00) 5 0 8 7 0) (replicate 512 x00)
             1 1 300 16 in
  let e := Tick [x01; x02; x03; x04] 7 in
  let s' := mkSys (mkRingBuffer (replicate 8 x00) 5 0 8 7 1) (replicate 512 x00)
              1 1 300 16 in
  sys_step s e = Done s' [EAdcConvert]
  /\ overflow (sdbuf s) = 0 /\ overflow (sdbuf s') <> 0
  /\ exists sample clk,
       e = Tick sample clk /\ file_open s <> 0
       /\ Z.of_nat (length sample) < len (sdbuf s)
       /\ rb_getfree_m (sdbuf s) < Z.of_nat (length sample)
       /\ overflow (sdbuf s') = 1.
Proof.
  intros s e s'.
  assert (H1 : sys_step s e = Done s' [EAdcConvert]) by (vm_compute; reflexivity).
  assert (H2 : overflow (sdbuf s) = 0) by reflexivity.
  assert (H3 : overflow (sdbuf s') <> 0) by (vm_compute; discriminate).
  repeat (split; [assumption|]).
  exact (proj1 (proj2 (proj2 (proj2 overflow_flag_lifecycle))) s e s' _ H1 H2 H3).
Defined.

(** ** Opening a file for a new session *)

(** C7 (as stated, refuted): after a session that logged eight bytes and
    was stopped, the pass that opens the next file clears the flag and sets
    [file_open], but [head] and [tail] stay at 8: the cursors are not
    zeroed. *)
Lemma open_on_start_keeps_cursors :
  let o := mkOracle [0] 0 0 [0] 1 0 0 0 0 in
  let sample := [x01; x02; x03; x04; x05; x06; x07; x08] in
  exists s t,
    sys_run (sys_init (replicate 1024 x00) 1024 0)
      [Button1 16 300; Loop o; Tick sample 301; Button1 16 600; Loop o;
       Button1 16 900] = Done s t
    /\ logger_running s <> 0 /\ file_open s = 0
    /\ exists s' t',
         open_on_start o s = Done s' t'
         /\ file_open s' = 1 /\ overflow (sdbuf s') = 0
         /\ head (sdbuf s') = 8 /\ tail (sdbuf s') = 8
         /\ ~ (head (sdbuf s') = 0 /\ tail (sdbuf s') = 0).
Proof.
  intros o sample. eexists _, _. split; [vm_compute; reflexivity|].
  split; [vm_compute; discriminate|]. split; [reflexivity|].
  eexists _, _. split; [vm_compute; reflexivity|].
  repeat (split; [reflexivity|]). vm_compute. intros [H _]. discriminate.
Qed.

(** C7 (amended): when a new session opens its file ([logger_running] set,
    [file_open] clear, an [f_open] eventually answering [FR_OK]), that part
    of the pass makes exactly the failed calls and the successful one,
    clears the overflow flag and then sets [file_open]; [head], [tail] and
    the stored bytes are left as they are.  No other step of the logger
    clears the flag. *)
Theorem open_on_start_clears_overflow (o : oracle) (s : sys)
    (fails rest : list FRESULT) :
  logger_running s <> 0 -> file_open s = 0 ->
  open_rs o = fails ++ FR_OK :: rest -> Forall (fun r => r <> FR_OK) fails ->
  (exists s' t,
      open_on_start o s = Done s' t
      /\ storage_calls t = map EOpen (fails ++ [FR_OK])
      /\ overflow (sdbuf s') = 0 /\ file_open s' = 1
      /\ head (sdbuf s') = head (sdbuf s) /\ tail (sdbuf s') = tail (sdbuf s)
      /\ buffer (sdbuf s') = buffer (sdbuf s) /\ len (sdbuf s') = len (sdbuf s)
      /\ logger_running s' = logger_running s)
  /\ (forall s0 e s1 t1,
        sys_step s0 e = Done s1 t1 ->
        overflow (sdbuf s0) <> 0 -> overflow (sdbuf s1) = 0 ->
        exists o', e = Loop o' /\ logger_running s0 <> 0 /\ file_open s0 = 0).
Proof.
  intros Hrun Hclosed Hrs Hfails. split; [|apply overflow_cleared_only_on_open].
  destruct (open_retry_succeeds fails rest Hfails) as (t & Ht & Hcalls).
  unfold open_on_start. rewrite Hrs, Ht.
  destruct (Z.eqb_spec (logger_running s) 0); [contradiction|].
  destruct (Z.eqb_spec (file_open s) 0); [|contradiction]. simpl.
  eexists _, _. split; [reflexivity|].
  rewrite storage_calls_app, Hcalls. simpl. rewrite app_nil_r. auto 10.
Qed.

Lemma open_on_start_clears_overflow_witness :
  let s := mkSys (mkRingBuffer (replicate 8 x00) 5 5 8 7 1) (replicate 512 x00)
             1 0 900 16 in
  let o := mkOracle [5; 0; 0] 0 0 [] 1 0 0 0 0 in
  logger_running s <> 0 /\ file_open s = 0
  /\ open_rs o = [5] ++ FR_OK :: [0] /\ Forall (fun r => r <> FR_OK) [5]
  /\ (exists s' t,
         open_on_start o s = Done s' t
         /\ storage_calls t = map EOpen ([5] ++ [FR_OK])
         /\ overflow (sdbuf s') = 0 /\ file_open s' = 1
         /\ head (sdbuf s') = head (sdbuf s) /\ tail (sdbuf s') = tail (sdbuf s)
         /\ buffer (sdbuf s') = buffer (sdbuf s) /\ len (sdbuf s') = len (sdbuf s)
         /\ logger_running s' = logger_running s)
  /\ (forall s0 e s1 t1,
        sys_step s0 e = Done s1 t1 ->
        overflow (sdbuf s0) <> 0 -> overflow (sdbuf s1) = 0 ->
        exists o', e = Loop o' /\ logger_running s0 <> 0 /\ file_open s0 = 0).
Proof.
  intros s o.
  assert (H1 : logger_running s <> 0) by (vm_compute; discriminate).
  assert (H2 : file_open s = 0) by reflexivity.
  assert (H3 : open_rs o = [5] ++ FR_OK :: [0]) by reflexivity.
  assert (H4 : Forall (fun r => r <> FR_OK) [5])
    by (repeat constructor; vm_compute; discriminate).
  repeat (split; [assumption|]).
  exact (open_on_start_clears_overflow o s [5] [0] H1 H2 H3 H4).
Defined.

(** ** Draining the buffer to storage *)

Lemma storage_calls_sd_write bytes fr :
  storage_calls ([ELed true; EWrite bytes fr]
                 ++ (if fr =? FR_OK then [] else [ELcdDebug (MsgWriteFail fr)])
                 ++ [ELed false])
  = [EWrite bytes fr].
Proof. destruct (fr =? FR_OK); reflexivity. Qed.

(** [sd_write] of no more bytes than are unread, into a scratch array that
    holds them: the oldest [n] bytes go to [f_write], in order, and leave
    the buffer. *)
Lemma sd_write_take fr n s :
  rb_wf (sdbuf s) -> 0 <= n <= rb_getused_m (sdbuf s) ->
  n <= Z.of_nat (length (writebuf s)) ->
  exists s1 t,
    sd_write fr n s = Done s1 t
    /\ storage_calls t = [EWrite (take (Z.to_nat n) (contents (sdbuf s))) fr]
    /\ rb_wf (sdbuf s1)
    /\ rb_getused_m (sdbuf s1) = rb_getused_m (sdbuf s) - n
    /\ contents (sdbuf s1) = drop (Z.to_nat n) (contents (sdbuf s))
    /\ length (writebuf s1) = length (writebuf s)
    /\ logger_running s1 = logger_running s /\ file_open s1 = file_open s.
Proof.
  intros Hwf Hn Hwb.
  pose proof (rb_getused_m_range _ Hwf) as Hused.
  pose proof (contents_length _ Hwf) as Hcl.
  assert (Hm : read_count (sdbuf s) n = n).
  { unfold read_count. destruct (Z.leb_spec (len (sdbuf s)) n); [lia|].
    destruct (Z.ltb_spec (rb_getused_m (sdbuf s)) n); lia. }
  destruct (ringbuf_read_contents (sdbuf s) (writebuf s) n Hwf ltac:(lia)
              ltac:(lia)) as (b' & d' & Hr & Hwf' & _ & Hd & Hu & Hc).
  rewrite Hm in *.
  assert (Hlen : length d' = length (writebuf s)).
  { rewrite Hd, length_app, length_take, length_drop. lia. }
  unfold sd_write. rewrite Hr.
  destruct (Z.leb_spec 0 n); [|lia].
  destruct (Z.leb_spec n (Z.of_nat (length d'))); [|lia]. simpl.
  eexists _, _. split; [reflexivity|].
  split; [|simpl; auto 10].
  transitivity [EWrite (take (Z.to_nat n) d') fr];
    [destruct (fr =? FR_OK); reflexivity|].
  do 2 f_equal.
  rewrite Hd, take_app_le by (rewrite length_take; lia).
  rewrite take_take. f_equal. lia.
Qed.

(** X7: with more than a block unread, a file open and logging on, the
    pass hands exactly one 512-byte block, the oldest bytes, to [f_write]
    and the occupancy drops by 512. *)
Lemma drain_block_one_block o s :
  rb_wf (sdbuf s) -> 512 < rb_getused_m (sdbuf s) ->
  file_open s <> 0 -> logger_running s <> 0 ->
  length (writebuf s) = 512%nat ->
  exists s1 t,
    drain_block o s = Done s1 t
    /\ storage_calls t = [EWrite (take 512 (contents (sdbuf s))) (write_fr o)]
    /\ rb_getused_m (sdbuf s1) = rb_getused_m (sdbuf s) - 512
    /\ contents (sdbuf s1) = drop 512 (contents (sdbuf s)).
Proof.
  intros Hwf Hused Hopen Hrun Hwb. unfold drain_block.
  destruct (Z.ltb_spec 512 (rb_getused_m (sdbuf s))); [|lia].
  destruct (Z.eqb_spec (file_open s) 0); [contradiction|].
  destruct (Z.eqb_spec (logger_running s) 0); [contradiction|]. simpl.
  destruct (sd_write_take (write_fr o) 512 s Hwf ltac:(lia) ltac:(lia))
    as (s1 & t & Hw & Hcalls & _ & Hu & Hc & _).
  exists s1, t. auto.
Qed.

(** ** Closing the file when logging stops *)

Lemma storage_calls_update_lcd o b tl :
  update_lcd o b = Some tl -> storage_calls tl = [EGetFree].
Proof.
  unfold update_lcd. destruct (_ || _); [discriminate|].
  intros [= <-]. destruct (overflow b =? 0); reflexivity.
Qed.

Lemma rb_getused_m_mod b :
  rb_wf b -> rb_getused_m b = (head b - tail b) mod len b.
Proof.
  intros Hwf. pose proof (wf_len_range b Hwf).
  pose proof (wf_head b Hwf). pose proof (wf_tail b Hwf).
  rewrite (rb_getused_m_wf b Hwf), mod_range by lia.
  destruct (Z.leb_spec (tail b) (head b)); mod_cases; lia.
Qed.

(** X20: when the supervisor finds [logger_running] clear and [file_open]
    set, and what is unread fits the scratch array, the storage driver is
    called in this order: one [f_write] of all the unread bytes, oldest
    first, as many as [head] is ahead of [tail]; [f_sync]; [f_close] again
    and again until it answers [FR_OK].  Only then is [file_open] cleared,
    with [tail] moved up to [head]; nothing is opened or drained in that
    pass, which goes on to the display refresh.  While no [f_close] has
    answered [FR_OK] the pass has not ended and [file_open] is still
    set. *)
Theorem close_on_stop_partial_block (o : oracle) (s : sys) :
  rb_wf (sdbuf s) -> logger_running s = 0 -> file_open s <> 0 ->
  rb_getused_m (sdbuf s) <= Z.of_nat (length (writebuf s)) ->
  Z.of_nat (length (contents (sdbuf s)))
  = (head (sdbuf s) - tail (sdbuf s)) mod len (sdbuf s)
  /\ (forall fails rest,
        close_rs o = fails ++ FR_OK :: rest ->
        Forall (fun r => r <> FR_OK) fails ->
        exists s' t,
          close_on_stop o s = Done s' t
          /\ storage_calls t
             = EWrite (contents (sdbuf s)) (write_fr o) :: ESync (sync_fr o)
               :: map EClose (fails ++ [FR_OK])
          /\ file_open s' = 0 /\ logger_running s' = 0
          /\ tail (sdbuf s') = head (sdbuf s)
          /\ head (sdbuf s') = head (sdbuf s)
          /\ rb_getused_m (sdbuf s') = 0
          /\ sd_loop_body o s = andthen (Done s' t) (status_refresh o))
  /\ (Forall (fun r => r <> FR_OK) (close_rs o) ->
      exists s' t,
        close_on_stop o s = Blocked s' t
        /\ storage_calls t
           = EWrite (contents (sdbuf s)) (write_fr o) :: ESync (sync_fr o)
             :: map EClose (close_rs o)
        /\ file_open s' = file_open s
        /\ sd_loop_body o s = Blocked s' t).
Proof.
  intros Hwf Hstop Hopen Hfit.
  pose proof (rb_getused_m_range _ Hwf) as Hused.
  pose proof (contents_length _ Hwf) as Hcl.
  destruct (sd_write_take (write_fr o) (rb_getused_m (sdbuf s)) s Hwf
              ltac:(lia) Hfit)
    as (s1 & tw & Hw & Hcw & Hwf1 & Hu1 & _ & _ & Hr1 & Hf1).
  pose proof (sd_write_frame _ _ _ _ _ Hw) as (_ & Hh1 & _).
  rewrite take_ge in Hcw by lia.
  assert (Hsync : forall t0,
             storage_calls ((ESync (sync_fr o)
                              :: (if sync_fr o =? FR_OK then []
                                  else [ELcdDebug MsgSyncFail])) ++ t0)
             = ESync (sync_fr o) :: storage_calls t0).
  { intros t0. destruct (sync_fr o =? FR_OK); reflexivity. }
  assert (Hopen_skip : open_on_start o s = Done s []).
  { unfold open_on_start. rewrite Hstop. reflexivity. }
  assert (Hphase : (logger_running s =? 0) && negb (file_open s =? 0) = true).
  { rewrite Hstop. destruct (Z.eqb_spec (file_open s) 0); [contradiction|].
    reflexivity. }
  split; [rewrite Hcl, <- (rb_getused_m_mod _ Hwf); lia|]. split.
  - intros fails rest Hrs Hfails.
    destruct (close_retry_succeeds fails rest Hfails) as (tc & Htc & Hcc).
    assert (Hclose : close_on_stop o s
                     = Done (set_file_open 0 s1)
                         (tw ++ (ESync (sync_fr o)
                                 :: (if sync_fr o =? FR_OK then []
                                     else [ELcdDebug MsgSyncFail])) ++ tc)).
    { unfold close_on_stop. rewrite Hphase, Hw. simpl. rewrite Hrs, Htc.
      reflexivity. }
    eexists _, _. split; [exact Hclose|].
    split; [rewrite storage_calls_app, Hcw, Hsync, Hcc; reflexivity|].
    split; [reflexivity|]. split; [simpl; congruence|].
    assert (Hz : rb_getused_m (sdbuf s1) = 0) by lia.
    split; [simpl; rewrite <- Hh1; symmetry;
            now apply (rb_getused_m_zero _ Hwf1)|].
    split; [exact Hh1|]. split; [exact Hz|].
    unfold sd_loop_body. rewrite Hopen_skip. simpl andthen at 3.
    rewrite Hclose. unfold drain_block. simpl.
    rewrite Bool.andb_false_r. simpl. now rewrite app_nil_r.
  - intros Hall.
    destruct (close_retry_blocked _ Hall) as (tc & Htc & Hcc).
    assert (Hclose : close_on_stop o s
                     = Blocked s1
                         (tw ++ (ESync (sync_fr o)
                                 :: (if sync_fr o =? FR_OK then []
                                     else [ELcdDebug MsgSyncFail])) ++ tc)).
    { unfold close_on_stop. rewrite Hphase, Hw. simpl. rewrite Htc.
      reflexivity. }
    eexists _, _. split; [exact Hclose|].
    split; [rewrite storage_calls_app, Hcw, Hsync, Hcc; reflexivity|].
    split; [exact Hf1|].
    unfold sd_loop_body. rewrite Hopen_skip. simpl andthen at 3.
    rewrite Hclose. reflexivity.
Qed.

Lemma close_on_stop_partial_block_witness :
  let s := mkSys (mkRingBuffer [x61; x62; x63; x64; x65; x66; x67; x68] 1 6 8 7 0)
             (replicate 512 x00) 0 1 600 0 in
  let o := mkOracle [] 0 0 [7; 0] 1 0 0 0 0 in
  rb_wf (sdbuf s) /\ logger_running s = 0 /\ file_open s <> 0
  /\ rb_getused_m (sdbuf s) <= Z.of_nat (length (writebuf s))
  /\ Z.of_nat (length (contents (sdbuf s)))
     = (head (sdbuf s) - tail (sdbuf s)) mod len (sdbuf s)
  /\ (forall fails rest,
         close_rs o = fails ++ FR_OK :: rest ->
         Forall (fun r => r <> FR_OK) fails ->
         exists s' t,
           close_on_stop o s = Done s' t
           /\ storage_calls t
              = EWrite (contents (sdbuf s)) (write_fr o) :: ESync (sync_fr o)
                :: map EClose (fails ++ [FR_OK])
           /\ file_open s' = 0 /\ logger_running s' = 0
           /\ tail (sdbuf s') = head (sdbuf s)
           /\ head (sdbuf s') = head (sdbuf s)
           /\ rb_getused_m (sdbuf s') = 0
           /\ sd_loop_body o s = andthen (Done s' t) (status_refresh o))
  /\ (Forall (fun r => r <> FR_OK) (close_rs o) ->
      exists s' t,
        close_on_stop o s = Blocked s' t
        /\ storage_calls t
           = EWrite (contents (sdbuf s)) (write_fr o) :: ESync (sync_fr o)
             :: map EClose (close_rs o)
        /\ file_open s' = file_open s
        /\ sd_loop_body o s = Blocked s' t).
Proof.
  intros s o.
  assert (H1 : rb_wf (sdbuf s)).
  { constructor; simpl; try lia. exists 3. split; [lia|reflexivity]. }
  assert (H2 : logger_running s = 0) by reflexivity.
  assert (H3 : file_open s <> 0) by (vm_compute; discriminate).
  assert (H4 : rb_getused_m (sdbuf s) <= Z.of_nat (length (writebuf s)))
    by (vm_compute; discriminate).
  split; [exact H1|]. split; [exact H2|]. split; [exact H3|].
  split; [exact H4|].
  exact (close_on_stop_partial_block o s H1 H2 H3 H4).
Defined.

(** Stopping with 200 bytes unread in a 1024-byte buffer: one [f_write] of
    those 200 bytes, then [f_sync], then [f_close]; [file_open] is clear
    afterwards. *)
Example close_on_stop_200_bytes :
  let o := mkOracle [0] 0 0 [0] 1 0 0 0 0 in
  let sample := [x01; x02; x03; x04; x05; x06; x07; x08] in
  exists s t s' t',
    sys_run (sys_init (replicate 1024 x00) 1024 0)
      ([Button1 16 300; Loop o] ++ replicate 25 (Tick sample 301)
       ++ [Button1 16 600]) = Done s t
    /\ rb_getused_m (sdbuf s) = 200
    /\ close_on_stop o s = Done s' t'
    /\ storage_calls t'
       = [EWrite (concat (replicate 25 sample)) 0; ESync 0; EClose 0]
    /\ file_open s' = 0.
Proof.
  intros o sample. eexists _, _, _, _.
  split; [vm_compute; reflexivity|]. split; [vm_compute; reflexivity|].
  split; [vm_compute; reflexivity|]. split; vm_compute; reflexivity.
Qed.

(** C8 (where the code departs from it): logging is stopped with 520 bytes
    unread, which the logger reaches with a pass of the supervisor after
    every tick.  What remains does not fit the 512-byte scratch array:
    [sd_write] is asked for all 520 bytes and the copy out of the ring
    buffer leaves the array, so the closing pass does not get to its
    [f_write], [f_sync] and [f_close] in a defined way. *)
Theorem close_on_stop_520_bytes :
  let o := mkOracle [0] 0 0 [0] 1 0 0 0 0 in
  let sample := [x01; x02; x03; x04; x05; x06; x07; x08] in
  exists s t,
    sys_run (sys_init (replicate 1024 x00) 1024 0)
      ([Button1 16 300; Loop o]
       ++ concat (replicate 64 [Tick sample 301; Loop o])
       ++ [Tick sample 301; Button1 16 600]) = Done s t
    /\ rb_getused_m (sdbuf s) = 520
    /\ length (writebuf s) = 512%nat
    /\ logger_running s = 0 /\ file_open s = 1
    /\ ringbuf_read (sdbuf s) (writebuf s) (rb_getused_m (sdbuf s)) = None
    /\ close_on_stop o s = Undefined
    /\ sd_loop_body o s = Undefined.
Proof.
  intros o sample. eexists _, _.
  split; [vm_compute; reflexivity|]. repeat split.
Qed.

(** ** The debounced start/stop button *)

(** C9 (as stated, refuted): an edge exactly 250 ticks after the last
    accepted toggle is not below the interval, yet the handler ignores it:
    [logger_running] is not flipped and no toggle time is recorded.  And two
    edges 100 ticks apart that both come within 250 ticks of the last
    toggle produce no transition at all. *)
Lemma debounce_ignores_edge_at_interval :
  let s := mkSys (sd_setup_ringbuf (replicate 8 x00) 8) (replicate 512 x00)
             0 0 1000 0 in
  Z.land 16 P1IV_P1IFG7 <> 0
  /\ ~ (1250 - time s < 250)
  /\ PORT1_ISR 16 1250 s = (s, [])
  /\ logger_running (fst (PORT1_ISR 16 1250 s)) <> toggled (logger_running s)
  /\ time (fst (PORT1_ISR 16 1250 s)) <> 1250
  /\ fst (PORT1_ISR 16 1200 (fst (PORT1_ISR 16 1100 s))) = s.
Proof.
  intros s. split; [vm_compute; discriminate|].
  split; [vm_compute; discriminate|]. split; [reflexivity|].
  split; [vm_compute; discriminate|]. split; [vm_compute; discriminate|].
  reflexivity.
Qed.

Lemma PORT1_ISR_accept p1iv clk s :
  Z.land p1iv P1IV_P1IFG7 <> 0 -> 250 < u32 (clk - time s) ->
  logger_running (fst (PORT1_ISR p1iv clk s)) = toggled (logger_running s)
  /\ time (fst (PORT1_ISR p1iv clk s)) = clk.
Proof.
  intros Hedge Hlate. unfold PORT1_ISR.
  destruct (Z.eqb_spec (Z.land p1iv P1IV_P1IFG7) 0); [contradiction|].
  destruct (Z.ltb_spec 250 (u32 (clk - time s))); [|lia]. simpl.
  unfold toggled. destruct (logger_running s =? 0); auto.
Qed.

Lemma PORT1_ISR_ignore p1iv clk s :
  u32 (clk - time s) <= 250 -> PORT1_ISR p1iv clk s = (s, []).
Proof.
  intros Hsoon. unfold PORT1_ISR.
  destruct (Z.ltb_spec 250 (u32 (clk - time s))); [lia|].
  now rewrite Bool.andb_false_r.
Qed.

(** C9 (amended): on an edge of button S1 the handler ignores the edge when
    at most 250 ticks have passed since the last accepted toggle; when more
    than 250 have passed it flips [logger_running] and records the tick.
    Of two edges less than 250 ticks apart at most one changes the state:
    if the first is accepted the second is ignored, so exactly one
    transition takes place. *)
Theorem debounce_250 (s : sys) (p1iv clk : Z) :
  Z.land p1iv P1IV_P1IFG7 <> 0 ->
  0 <= time s -> time s <= clk -> clk < 4294967296 ->
  (clk - time s <= 250 -> PORT1_ISR p1iv clk s = (s, []))
  /\ (250 < clk - time s ->
      logger_running (fst (PORT1_ISR p1iv clk s)) = toggled (logger_running s)
      /\ logger_running (fst (PORT1_ISR p1iv clk s)) <> logger_running s
      /\ time (fst (PORT1_ISR p1iv clk s)) = clk)
  /\ (forall p1iv' clk',
        clk <= clk' -> clk' - clk < 250 ->
        let s1 := fst (PORT1_ISR p1iv clk s) in
        let s2 := fst (PORT1_ISR p1iv' clk' s1) in
        (250 < clk - time s -> s2 = s1)
        /\ (s1 = s \/ s2 = s1)).
Proof.
  intros Hedge Ht0 Ht Hclk.
  assert (Hel : u32 (clk - time s) = clk - time s)
    by (unfold u32; apply Z.mod_small; lia).
  split; [|split].
  - intros Hsoon. apply PORT1_ISR_ignore. lia.
  - intros Hlate.
    destruct (PORT1_ISR_accept p1iv clk s Hedge ltac:(lia)) as [Hr Htime].
    repeat split; try assumption.
    rewrite Hr. unfold toggled. destruct (Z.eqb_spec (logger_running s) 0); lia.
  - intros p1iv' clk' Hmono Hnear. cbv zeta.
    assert (Hsecond : 250 < clk - time s ->
                      fst (PORT1_ISR p1iv' clk' (fst (PORT1_ISR p1iv clk s)))
                      = fst (PORT1_ISR p1iv clk s)).
    { intros Hlate.
      destruct (PORT1_ISR_accept p1iv clk s Hedge ltac:(lia)) as [_ Htime].
      rewrite PORT1_ISR_ignore; [reflexivity|].
      rewrite Htime. unfold u32. rewrite Z.mod_small; lia. }
    split; [exact Hsecond|].
    destruct (Z.le_gt_cases (clk - time s) 250) as [Hsoon|Hlate].
    + left. rewrite PORT1_ISR_ignore by lia. reflexivity.
    + right. apply Hsecond. lia.
Qed.

Lemma debounce_250_witness :
  let s := mkSys (sd_setup_ringbuf (replicate 8 x00) 8) (replicate 512 x00)
             0 0 1000 0 in
  Z.land 16 P1IV_P1IFG7 <> 0
  /\ 0 <= time s /\ time s <= 1251 /\ 1251 < 4294967296
  /\ (1251 - time s <= 250 -> PORT1_ISR 16 1251 s = (s, []))
  /\ (250 < 1251 - time s ->
      logger_running (fst (PORT1_ISR 16 1251 s)) = toggled (logger_running s)
      /\ logger_running (fst (PORT1_ISR 16 1251 s)) <> logger_running s
      /\ time (fst (PORT1_ISR 16 1251 s)) = 1251)
  /\ (forall p1iv' clk',
        1251 <= clk' -> clk' - 1251 < 250 ->
        let s1 := fst (PORT1_ISR 16 1251 s) in
        let s2 := fst (PORT1_ISR p1iv' clk' s1) in
        (250 < 1251 - time s -> s2 = s1)
        /\ (s1 = s \/ s2 = s1)).
Proof.
  intros s.
  assert (H1 : Z.land 16 P1IV_P1IFG7 <> 0) by (vm_compute; discriminate).
  assert (H2 : 0 <= time s) by (vm_compute; discriminate).
  assert (H3 : time s <= 1251) by (vm_compute; discriminate).
  assert (H4 : 1251 < 4294967296) by reflexivity.
  repeat (split; [assumption|]).
  exact (debounce_250 s 16 1251 H1 H2 H3 H4).
Defined.

(** Two presses 100 ticks apart, the first one late enough to count:
    logging is switched on once and stays on. *)
Example debounce_two_edges :
  let s := mkSys (sd_setup_ringbuf (replicate 8 x00) 8) (replicate 512 x00)
             0 0 1000 0 in
  let s1 := fst (PORT1_ISR 16 1300 s) in
  let s2 := fst (PORT1_ISR 16 1400 s1) in
  logger_running s = 0 /\ logger_running s1 = 1 /\ logger_running s2 = 1
  /\ time s2 = 1300.
Proof. repeat split. Qed.

(** ** Reachable states *)

Lemma ringbuf_read_length b dest n r b' d' :
  ringbuf_read b dest n = Some (r, b', d') -> length d' = length dest.
Proof.
  unfold ringbuf_read.
  destruct (len b <=? n); [now intros [= <- <- <-]|].
  cbv zeta.
  generalize (if rb_getused_m b <? n then rb_getused_m b else n). intros m.
  destruct (u16 (tail b + m) <? len b).
  - destruct (memcpy _ _ _ _ _) eqn:H1; simpl; [|discriminate].
    intros [= <- <- <-]. now apply memcpy_length in H1.
  - destruct (memcpy _ _ _ _ _) as [d1|] eqn:H1; simpl; [|discriminate].
    destruct (memcpy d1 _ _ _ _) as [d2|] eqn:H2; simpl; [|discriminate].
    intros [= <- <- <-]. apply memcpy_length in H1, H2. congruence.
Qed.

Lemma rb_step_wf b o b' r :
  rb_wf b -> op_fits o -> rb_step b o = Some (b', r) -> rb_wf b'.
Proof.
  intros Hwf Hfit Hs.
  destruct (rb_step_same_view b b o (same_view_refl b Hwf) Hfit)
    as (b1 & b2 & r1 & H1 & _ & Hsv).
  rewrite Hs in H1. injection H1 as <- <-. apply Hsv.
Qed.

Lemma sd_write_len fr n s s' t :
  sd_write fr n s = Done s' t -> len (sdbuf s') = len (sdbuf s).
Proof.
  unfold sd_write.
  destruct (ringbuf_read (sdbuf s) (writebuf s) n) as [[[r b'] wb']|] eqn:Hr;
    [|discriminate].
  destruct (_ && _); [|discriminate]. intros [= <- <-]. simpl.
  now apply ringbuf_read_frame in Hr.
Qed.

Lemma sd_write_wf fr n s s' t :
  rb_wf (sdbuf s) -> sd_write fr n s = Done s' t ->
  rb_wf (sdbuf s') /\ length (writebuf s') = length (writebuf s).
Proof.
  intros Hwf. unfold sd_write.
  destruct (ringbuf_read (sdbuf s) (writebuf s) n) as [[[r b'] wb']|] eqn:Hr;
    [|discriminate].
  pose proof (ringbuf_read_length _ _ _ _ _ _ Hr) as Hlen.
  destruct (Z.leb_spec 0 n); [|discriminate].
  destruct (Z.leb_spec n (Z.of_nat (length wb'))); [|discriminate].
  intros [= <- <-]. simpl. split; [|assumption].
  apply (rb_step_wf (sdbuf s) (OpRead (writebuf s) n) b'
           (ResRead r (take (Z.to_nat (read_count (sdbuf s) n)) wb')) Hwf).
  - simpl. lia.
  - simpl. now rewrite Hr.
Qed.

Lemma sys_step_wf s e s' t :
  rb_wf (sdbuf s) -> sys_step s e = Done s' t -> rb_wf (sdbuf s').
Proof.
  intros Hwf. destruct e as [sample clk|p1iv clk|o]; simpl.
  - unfold TIMER1_A0_ISR. destruct (file_open s =? 0); [now intros [= <- <-]|].
    destruct (ringbuf_write _ _ _) as [[r b']|] eqn:Hw; [|discriminate].
    intros [= <- <-]. simpl.
    apply (rb_step_wf (sdbuf s) (OpWrite sample (Z.of_nat (length sample))) b'
             (ResWrite r) Hwf).
    + simpl. lia.
    + simpl. now rewrite Hw.
  - destruct (PORT1_ISR_sdbuf p1iv clk s) as [Hb _].
    destruct (PORT1_ISR p1iv clk s) as [s1 t1]. intros [= <- <-].
    simpl in Hb. now rewrite Hb.
  - unfold sd_loop_body. intros H.
    apply andthen_Done in H as (s3 & t3 & t4 & H & Hst & _).
    apply andthen_Done in H as (s2 & t2 & t5 & H & Hdr & _).
    apply andthen_Done in H as (s1 & t1 & t6 & Hop & Hcl & _).
    apply status_refresh_Done in Hst as ->.
    assert (Hwf1 : rb_wf (sdbuf s1)).
    { apply open_on_start_Done in Hop as [(_ & _ & ->)|(_ & ->)]; [|assumption].
      simpl. now apply rb_wf_set_overflow. }
    assert (Hwf2 : rb_wf (sdbuf s2)).
    { unfold close_on_stop in Hcl.
      destruct ((logger_running s1 =? 0) && negb (file_open s1 =? 0));
        [|now injection Hcl as <- _].
      apply andthen_Done in Hcl as (s1' & t1' & t2' & Hw & Hc & _).
      destruct (sd_write_wf _ _ _ _ _ Hwf1 Hw) as [Hw' _].
      destruct (close_retry (close_rs o)) as [[|] t0]; [|discriminate].
      now injection Hc as <- _. }
    unfold drain_block in Hdr.
    destruct (_ && _ && _); [|now injection Hdr as <- _].
    now destruct (sd_write_wf _ _ _ _ _ Hwf2 Hdr) as [Hd _].
Qed.

Lemma sys_run_wf es : forall s s' t,
  rb_wf (sdbuf s) -> sys_run s es = Done s' t -> rb_wf (sdbuf s').
Proof.
  induction es as [|e es IH]; intros s s' t Hwf; simpl.
  - now intros [= <- <-].
  - intros H. apply andthen_Done in H as (s1 & t1 & t2 & Hs & Hr & _).
    apply (IH s1 s' t2); [|assumption]. now apply (sys_step_wf s e s1 t1).
Qed.

Lemma reachable_wf (ringbuf : list byte) (k ctl : Z) (s : sys) :
  0 <= k <= 15 -> Z.of_nat (length ringbuf) = 2 ^ k ->
  reachable ringbuf (2 ^ k) ctl s -> rb_wf (sdbuf s).
Proof.
  intros Hk Hlen (es & t & Hrun).
  apply (sys_run_wf es _ s t) in Hrun; [assumption|].
  simpl. now apply sd_setup_ringbuf_wf.
Qed.

(** C2 (as stated, refuted): in the state [sd_setup] hands to its loop,
    with a 1024-byte array, [rb_getused_m] reports 0 and [rb_getfree_m]
    reports 1024; the two add up to the length, not to the length less
    one. *)
Lemma occupancy_plus_free_not_len_minus_1 :
  let s := sys_init (replicate 1024 x00) 1024 0 in
  reachable (replicate 1024 x00) 1024 0 s
  /\ rb_getused_m (sdbuf s) = 0 /\ rb_getfree_m (sdbuf s) = 1024
  /\ len (sdbuf s) = 1024
  /\ rb_getused_m (sdbuf s) + rb_getfree_m (sdbuf s) <> len (sdbuf s) - 1.
Proof.
  intros s. split; [exists [], []; reflexivity|].
  do 3 (split; [reflexivity|]). vm_compute. discriminate.
Qed.

(** C2 (amended): in every state the logger can reach, over a storage array
    whose length is a power of two, what [rb_getused_m] and [rb_getfree_m]
    report adds up to [len], the full length of the array. *)
Theorem occupancy_plus_free_is_len (ringbuf : list byte) (k ctl : Z) (s : sys) :
  0 <= k <= 15 -> Z.of_nat (length ringbuf) = 2 ^ k ->
  reachable ringbuf (2 ^ k) ctl s ->
  rb_getused_m (sdbuf s) + rb_getfree_m (sdbuf s) = len (sdbuf s).
Proof.
  intros Hk Hlen Hreach.
  apply rb_used_plus_free. exact (reachable_wf ringbuf k ctl s Hk Hlen Hreach).
Qed.

Lemma occupancy_plus_free_is_len_witness :
  let o := mkOracle [0] 0 0 [0] 1 0 0 0 0 in
  let s := mkSys (mkRingBuffer ([x01; x02; x03] ++ replicate 5 x00) 3 0 8 7 0)
             (replicate 512 x00) 1 1 300 16 in
  0 <= 3 <= 15 /\ Z.of_nat (length (replicate 8 x00)) = 2 ^ 3
  /\ reachable (replicate 8 x00) (2 ^ 3) 0 s
  /\ rb_getused_m (sdbuf s) + rb_getfree_m (sdbuf s) = len (sdbuf s).
Proof.
  intros o s.
  assert (H1 : 0 <= 3 <= 15) by lia.
  assert (H2 : Z.of_nat (length (replicate 8 x00)) = 2 ^ 3) by reflexivity.
  assert (H3 : reachable (replicate 8 x00) (2 ^ 3) 0 s).
  { exists [Button1 16 300; Loop o; Tick [x01; x02; x03] 301]. eexists.
    vm_compute. reflexivity. }
  split; [exact H1|]. split; [exact H2|]. split; [exact H3|].
  exact (occupancy_plus_free_is_len (replicate 8 x00) 3 0 s H1 H2 H3).
Defined.

(** ** Scenarios of the design document *)

(** A 1024-byte buffer: 600 bytes go in; 600 more do not fit, the call
    fails, the flag is set and [head] stays at 600. *)
Example scenario_overflow :
  let data := replicate 600 x2a in
  exists b1 b2,
    ringbuf_write (sd_setup_ringbuf (replicate 1024 x00) 1024) data 600
    = Some (0, b1)
    /\ head b1 = 600 /\ overflow b1 = 0
    /\ ringbuf_write b1 data 600 = Some (1, b2)
    /\ head b2 = 600 /\ tail b2 = 0 /\ overflow b2 = 1
    /\ buffer b2 = buffer b1.
Proof.
  intros data. eexists _, _. split; [vm_compute; reflexivity|].
  do 2 (split; [reflexivity|]). split; [vm_compute; reflexivity|].
  repeat split.
Qed.

(** The card is there at the second look and [f_mount] fails three times
    before it succeeds: three reports, four calls, then the display is
    refreshed (the volume has 2000 entries of 8 sectors, 100 clusters
    free) and the loop goes on. *)
Example scenario_mount_retry :
  let o := mkOracle [] 0 0 [] 1 100 2000 8 4096 in
  let s := sys_init (replicate 1024 x00) 1024 0 in
  exists t,
    sd_setup_mount o [false; true] [3; 3; 1; 0] s = Done s t
    /\ storage_calls t = [EMount 3; EMount 3; EMount 1; EMount 0; EGetFree]
    /\ List.filter (fun e => match e with EUart _ => true | _ => false end) t
       = [EUart (MsgMountFail 3); EUart (MsgMountFail 3); EUart (MsgMountFail 1)].
Proof.
  intros o s. eexists. split; [vm_compute; reflexivity|]. split; reflexivity.
Qed.

(** * Further properties of the code *)

(** ** The ring buffer as a queue *)

Ltac step_concrete :=
  let b' := fresh "b'" in
  let r := fresh "r" in
  let H := fresh "H" in
  intros b' r H; vm_compute in H; injection H as <- <-.

Lemma ringbuf_fifo_reserved_slot_witness :
  let b := sd_setup_ringbuf (replicate 4 x00) 4 in
  let ops := [OpWrite [x61; x62; x63] 3; OpRead [x00; x00] 2;
              OpWrite [x64; x65] 2; OpRead [x00; x00; x00] 3] in
  rb_wf b /\ reserved_slot_ok b ops
  /\ exists b' rs,
       rb_run b ops = Some (b', rs)
       /\ rb_wf b'
       /\ Forall (fun r => ret_of r = 0) rs
       /\ contents b ++ bytes_written ops = bytes_read rs ++ contents b'.
Proof.
  intros b ops.
  assert (Hwf : rb_wf b).
  { apply (sd_setup_ringbuf_wf (replicate 4 x00) 2); [lia|reflexivity]. }
  assert (Hok : reserved_slot_ok b ops).
  { split; [vm_compute; repeat split; discriminate|step_concrete].
    split; [vm_compute; repeat split; discriminate|step_concrete].
    split; [vm_compute; repeat split; discriminate|step_concrete].
    split; [vm_compute; repeat split; discriminate|step_concrete].
    exact I. }
  split; [exact Hwf|]. split; [exact Hok|].
  exact (ringbuf_fifo_reserved_slot ops b Hwf Hok).
Defined.

(** X2: what is written into an empty buffer is what the next read of the
    same size returns, byte for byte, and the buffer is empty again. *)
Theorem ringbuf_write_read_roundtrip (b : RingBuffer) (data dest : list byte)
    (n : Z) :
  rb_wf b -> rb_getused_m b = 0 -> 0 <= n < len b ->
  n <= Z.of_nat (length data) -> n <= Z.of_nat (length dest) ->
  exists b1 b2,
    ringbuf_write b data n = Some (0, b1)
    /\ ringbuf_read b1 dest n
       = Some (0, b2, take (Z.to_nat n) data ++ drop (Z.to_nat n) dest)
    /\ rb_getused_m b2 = 0 /\ head b2 = tail b2
    /\ overflow b2 = overflow b.
Proof.
  intros Hwf Hempty Hn Hdata Hdest.
  pose proof (rb_getfree_m_wf b Hwf) as Hfree.
  destruct (ringbuf_write_contents b data n Hwf Hn ltac:(lia) Hdata)
    as (b1 & Hw & Hwf1 & _ & _ & Hl1 & Ho1 & Hu1 & Hc1).
  destruct (Z.ltb_spec (rb_getused_m b + n) (len b)); [|lia].
  rewrite (contents_empty b Hempty) in Hc1. simpl in Hc1.
  assert (Hrc : read_count b1 n = n).
  { unfold read_count. rewrite Hl1, Hu1.
    destruct (Z.leb_spec (len b) n); [lia|].
    destruct (Z.ltb_spec (rb_getused_m b + n) n); lia. }
  destruct (ringbuf_read_contents b1 dest n Hwf1 ltac:(lia) ltac:(lia))
    as (b2 & d2 & Hr & Hwf2 & Hb2 & Hd2 & Hu2 & _).
  rewrite Hrc in *. exists b1, b2. split; [exact Hw|].
  split; [|split; [lia|split]].
  - rewrite Hr, Hd2, Hc1, take_take, Nat.min_id. reflexivity.
  - apply (rb_getused_m_zero b2 Hwf2). lia.
  - rewrite Hb2. simpl. exact Ho1.
Qed.

Lemma ringbuf_write_read_roundtrip_witness :
  let b := mkRingBuffer [x61; x62; x63; x64] 3 3 4 3 0 in
  let data := [x01; x02; x03] in
  let dest := [x00; x00; x00; x00] in
  rb_wf b /\ rb_getused_m b = 0 /\ 0 <= 3 < len b
  /\ 3 <= Z.of_nat (length data) /\ 3 <= Z.of_nat (length dest)
  /\ exists b1 b2,
       ringbuf_write b data 3 = Some (0, b1)
       /\ ringbuf_read b1 dest 3
          = Some (0, b2, take (Z.to_nat 3) data ++ drop (Z.to_nat 3) dest)
       /\ rb_getused_m b2 = 0 /\ head b2 = tail b2
       /\ overflow b2 = overflow b.
Proof.
  intros b data dest.
  assert (H1 : rb_wf b).
  { constructor; simpl; try lia. exists 2. split; [lia|reflexivity]. }
  assert (H2 : rb_getused_m b = 0) by reflexivity.
  assert (H3 : 0 <= 3 < len b) by (simpl; lia).
  assert (H4 : 3 <= Z.of_nat (length data)) by (simpl; lia).
  assert (H5 : 3 <= Z.of_nat (length dest)) by (simpl; lia).
  split; [exact H1|]. split; [exact H2|]. split; [exact H3|].
  split; [exact H4|]. split; [exact H5|].
  exact (ringbuf_write_read_roundtrip b data dest 3 H1 H2 H3 H4 H5).
Defined.

(** X3: a write that passes both guards stores its [n] bytes in the cells
    from [head] on, wrapping at the end of the array, changes no other
    cell, advances [head] by [n] modulo the length and leaves [tail], the
    flag and the length as they are. *)
Theorem ringbuf_write_stores (b : RingBuffer) (data : list byte) (n : Z) :
  rb_wf b -> 0 <= n < len b -> n <= rb_getfree_m b ->
  n <= Z.of_nat (length data) ->
  exists buf',
    ringbuf_write b data n
    = Some (0, mkRingBuffer buf' ((head b + n) mod len b) (tail b) (len b)
                 (mask b) (overflow b))
    /\ length buf' = length (buffer b)
    /\ forall i : nat, Z.of_nat i < len b ->
         buf' !! i
         = if (Z.of_nat i - head b) mod len b <? n
           then data !! Z.to_nat ((Z.of_nat i - head b) mod len b)
           else buffer b !! i.
Proof.
  intros Hwf Hn Hfree Hdata.
  destruct (ringbuf_write_wf b data n Hwf Hn Hfree Hdata) as (buf' & Hw & H).
  exists buf'. split; [exact Hw|exact H].
Qed.

Lemma ringbuf_write_stores_witness :
  let b := mkRingBuffer [x61; x62; x63; x64] 3 2 4 3 0 in
  let data := [x01; x02] in
  rb_wf b /\ 0 <= 2 < len b /\ 2 <= rb_getfree_m b
  /\ 2 <= Z.of_nat (length data)
  /\ exists buf',
       ringbuf_write b data 2
       = Some (0, mkRingBuffer buf' ((head b + 2) mod len b) (tail b) (len b)
                    (mask b) (overflow b))
       /\ length buf' = length (buffer b)
       /\ forall i : nat, Z.of_nat i < len b ->
            buf' !! i
            = if (Z.of_nat i - head b) mod len b <? 2
              then data !! Z.to_nat ((Z.of_nat i - head b) mod len b)
              else buffer b !! i.
Proof.
  intros b data.
  assert (H1 : rb_wf b).
  { constructor; simpl; try lia. exists 2. split; [lia|reflexivity]. }
  assert (H2 : 0 <= 2 < len b) by (simpl; lia).
  assert (H3 : 2 <= rb_getfree_m b) by (vm_compute; discriminate).
  assert (H4 : 2 <= Z.of_nat (length data)) by (simpl; lia).
  split; [exact H1|]. split; [exact H2|]. split; [exact H3|].
  split; [exact H4|].
  exact (ringbuf_write_stores b data 2 H1 H2 H3 H4).
Defined.

(** The write of the witness, evaluated: the two bytes land in the last cell
    and, wrapped, in the first. *)
Example ringbuf_write_wraps :
  ringbuf_write (mkRingBuffer [x61; x62; x63; x64] 3 2 4 3 0) [x01; x02] 2
  = Some (0, mkRingBuffer [x02; x62; x63; x01] 1 2 4 3 0).
Proof. reflexivity. Qed.

(** X4: whatever it is asked for, a read that stays within its arrays
    returns 1 exactly when [n >= len], and never changes [head], the overflow
    flag, the stored bytes, the length or the mask, nor the size of the
    destination. *)
Theorem ringbuf_read_leaves_rest (b : RingBuffer) (dest : list byte) (n r : Z)
    (b' : RingBuffer) (d' : list byte) :
  ringbuf_read b dest n = Some (r, b', d') ->
  r = (if len b <=? n then 1 else 0)
  /\ head b' = head b /\ overflow b' = overflow b /\ buffer b' = buffer b
  /\ len b' = len b /\ mask b' = mask b
  /\ length d' = length dest.
Proof.
  intros Hr.
  destruct (ringbuf_read_frame _ _ _ _ _ _ Hr) as (Ho & Hh & Hb & Hl & Hm).
  pose proof (ringbuf_read_length _ _ _ _ _ _ Hr) as Hd.
  repeat (split; [first [assumption | idtac]|]); try assumption.
  revert Hr. unfold ringbuf_read.
  destruct (len b <=? n); [now intros [= <- _ _]|]. cbv zeta.
  generalize (if rb_getused_m b <? n then rb_getused_m b else n). intros m.
  destruct (u16 (tail b + m) <? len b).
  - destruct (memcpy _ _ _ _ _); simpl; [|discriminate]. now intros [= <- _ _].
  - destruct (memcpy _ _ _ _ _) as [d1|]; simpl; [|discriminate].
    destruct (memcpy d1 _ _ _ _); simpl; [|discriminate]. now intros [= <- _ _].
Qed.

Lemma ringbuf_read_leaves_rest_witness :
  let b := mkRingBuffer [x61; x62; x63; x64] 1 3 4 3 1 in
  let b' := mkRingBuffer [x61; x62; x63; x64] 1 0 4 3 1 in
  ringbuf_read b [x00; x00] 1 = Some (0, b', [x64; x00])
  /\ 0 = (if len b <=? 1 then 1 else 0)
  /\ head b' = head b /\ overflow b' = overflow b /\ buffer b' = buffer b
  /\ len b' = len b /\ mask b' = mask b
  /\ length [x64; x00] = length [x00; x00].
Proof.
  intros b b'.
  assert (H : ringbuf_read b [x00; x00] 1 = Some (0, b', [x64; x00]))
    by reflexivity.
  split; [exact H|].
  exact (ringbuf_read_leaves_rest b [x00; x00] 1 0 b' [x64; x00] H).
Defined.

(** X5: from a well-formed buffer, any sequence of writes and reads whose
    byte counts fit the callers' arrays is defined, that is, no [memcpy]
    leaves the storage array or a caller's array, and the buffer stays
    well-formed: cursors within the array, length and mask unchanged. *)
Theorem ringbuf_calls_stay_in_bounds (b : RingBuffer) (ops : list rb_op) :
  rb_wf b -> Forall op_fits ops ->
  exists b' rs,
    rb_run b ops = Some (b', rs)
    /\ rb_wf b' /\ len b' = len b /\ length (buffer b') = length (buffer b)
    /\ length rs = length ops.
Proof.
  revert b. induction ops as [|o ops IH]; intros b Hwf Hfit.
  - exists b, []. repeat apply conj; auto.
  - inversion Hfit as [|? ? Ho Hops]; subst.
    destruct (rb_step_same_view b b o (same_view_refl b Hwf) Ho)
      as (b1 & b1' & r & Hs & _ & Hsv).
    assert (Hwf1 : rb_wf b1) by apply Hsv.
    assert (Hkeep : len b1 = len b /\ length (buffer b1) = length (buffer b)).
    { pose proof (wf_buffer _ Hwf). pose proof (wf_buffer _ Hwf1).
      assert (len b1 = len b); [|split; [assumption|lia]].
      destruct o as [data n|dest n]; simpl in Hs.
      - destruct (ringbuf_write b data n) as [[r0 b0]|] eqn:Hw; [|discriminate].
        simpl in Hs. injection Hs as <- _.
        revert Hw. unfold ringbuf_write.
        destruct (len b <=? n); [now intros [= _ <-]|].
        destruct (rb_getfree_m b <? n); [now intros [= _ <-]|].
        destruct (u16 (head b + n) <? len b).
        + destruct (memcpy _ _ _ _ _); simpl; [|discriminate].
          now intros [= _ <-].
        + destruct (memcpy _ _ _ _ _) as [d1|]; simpl; [|discriminate].
          destruct (memcpy d1 _ _ _ _); simpl; [|discriminate].
          now intros [= _ <-].
      - destruct (ringbuf_read b dest n) as [[[r0 b0] d0]|] eqn:Hr;
          [|discriminate].
        simpl in Hs. injection Hs as <- _.
        now destruct (ringbuf_read_frame _ _ _ _ _ _ Hr) as (_ & _ & _ & ? & _). }
    destruct (IH b1 Hwf1 Hops) as (b' & rs & Hr & Hwf' & Hl & Hb & Hn).
    exists b', (r :: rs).
    change (rb_run b (o :: ops))
      with (rb_step b o ≫= fun '(b1, r) =>
            rb_run b1 ops ≫= fun '(b2, rs) => Some (b2, r :: rs)).
    rewrite Hs. simpl. rewrite Hr. simpl.
    destruct Hkeep. repeat apply conj; auto; congruence.
Qed.

Lemma ringbuf_calls_stay_in_bounds_witness :
  let b := sd_setup_ringbuf (replicate 4 x00) 4 in
  let ops := [OpWrite [x61; x62; x63] 3; OpWrite [x64; x65] 2;
              OpRead [x00; x00; x00; x00; x00] 5; OpRead [x00; x00] 2] in
  rb_wf b /\ Forall op_fits ops
  /\ exists b' rs,
       rb_run b ops = Some (b', rs)
       /\ rb_wf b' /\ len b' = len b /\ length (buffer b') = length (buffer b)
       /\ length rs = length ops.
Proof.
  intros b ops.
  assert (Hwf : rb_wf b).
  { apply (sd_setup_ringbuf_wf (replicate 4 x00) 2); [lia|reflexivity]. }
  assert (Hfit : Forall op_fits ops) by (repeat constructor; simpl; lia).
  split; [exact Hwf|]. split; [exact Hfit|].
  exact (ringbuf_calls_stay_in_bounds b ops Hwf Hfit).
Defined.

(** X6: a read of no more bytes than are unread returns the [n] oldest, in
    order, at the front of the destination, keeps the others in the
    buffer in their order and lowers the occupancy by exactly [n]. *)
Theorem ringbuf_read_oldest_first (b : RingBuffer) (dest : list byte) (n : Z) :
  rb_wf b -> 0 <= n <= rb_getused_m b -> n <= Z.of_nat (length dest) ->
  exists b',
    ringbuf_read b dest n
    = Some (0, b', take (Z.to_nat n) (contents b) ++ drop (Z.to_nat n) dest)
    /\ contents b' = drop (Z.to_nat n) (contents b)
    /\ rb_getused_m b' = rb_getused_m b - n
    /\ rb_getfree_m b' = rb_getfree_m b + n.
Proof.
  intros Hwf Hn Hdest.
  pose proof (rb_getused_m_range b Hwf) as Hused.
  assert (Hrc : read_count b n = n).
  { unfold read_count. destruct (Z.leb_spec (len b) n); [lia|].
    destruct (Z.ltb_spec (rb_getused_m b) n); lia. }
  destruct (ringbuf_read_contents b dest n Hwf ltac:(lia) ltac:(lia))
    as (b' & d' & Hr & Hwf' & Hb' & Hd' & Hu' & Hc').
  rewrite Hrc in *. exists b'. rewrite Hr, Hd'.
  repeat apply conj; auto.
  rewrite (rb_getfree_m_wf b Hwf), (rb_getfree_m_wf b' Hwf').
  rewrite Hb' at 1. simpl. lia.
Qed.

Lemma ringbuf_read_oldest_first_witness :
  let b := mkRingBuffer [x61; x62; x63; x64] 2 3 4 3 0 in
  let dest := [x00; x00] in
  rb_wf b /\ 0 <= 2 <= rb_getused_m b /\ 2 <= Z.of_nat (length dest)
  /\ exists b',
       ringbuf_read b dest 2
       = Some (0, b', take (Z.to_nat 2) (contents b) ++ drop (Z.to_nat 2) dest)
       /\ contents b' = drop (Z.to_nat 2) (contents b)
       /\ rb_getused_m b' = rb_getused_m b - 2
       /\ rb_getfree_m b' = rb_getfree_m b + 2.
Proof.
  intros b dest.
  assert (H1 : rb_wf b).
  { constructor; simpl; try lia. exists 2. split; [lia|reflexivity]. }
  assert (H2 : 0 <= 2 <= rb_getused_m b)
    by (split; vm_compute; discriminate).
  assert (H3 : 2 <= Z.of_nat (length dest)) by (simpl; lia).
  split; [exact H1|]. split; [exact H2|]. split; [exact H3|].
  exact (ringbuf_read_oldest_first b dest 2 H1 H2 H3).
Defined.

(** ** Mounting and opening *)

(** With nothing to do after the call, a retry loop that ends produces, for
    each failed call, the call followed by what precedes the next one, and
    then the successful call. *)
Lemma retry_loop_exact before call fails rest : forall fr,
  fr <> FR_OK -> Forall (fun r => r <> FR_OK) fails ->
  retry_loop before call [] fr (fails ++ FR_OK :: rest)
  = (true, before fr ++ flat_map (fun r => call r :: before r) fails
           ++ [call FR_OK]).
Proof.
  induction fails as [|f fails IH]; intros fr Hfr Hfails; simpl.
  - destruct (Z.eqb_spec fr FR_OK); [contradiction|].
    destruct rest; simpl; reflexivity.
  - inversion Hfails as [|? ? Hf Hfs]; subst.
    destruct (Z.eqb_spec fr FR_OK); [contradiction|].
    rewrite (IH f Hf Hfs). simpl. now rewrite <- !app_assoc.
Qed.

Lemma retry_exact before call fails rest :
  Forall (fun r => r <> FR_OK) fails ->
  retry before call [] (fails ++ FR_OK :: rest)
  = (true, flat_map (fun r => call r :: before r) fails ++ [call FR_OK]).
Proof.
  intros Hfails. destruct fails as [|f fails]; simpl.
  - destruct rest; reflexivity.
  - inversion Hfails as [|? ? Hf Hfs]; subst.
    rewrite (retry_loop_exact before call fails rest f Hf Hfs).
    now rewrite <- app_assoc.
Qed.

Lemma card_wait_present (k : nat) (more : list bool) :
  card_wait (replicate k false ++ true :: more)
  = (true, concat (replicate k [EDelay 250; ELcdDebug MsgInsertCard])).
Proof.
  induction k as [|k IH]; simpl; [reflexivity|]. now rewrite IH.
Qed.

(** X8: once the card is detected, at the [k+1]-th look, [sd_setup] calls
    [f_mount] until it answers [FR_OK]: each failed call is reported on the
    UART with its code and followed by a 100 ms delay, nothing else happens
    in between, and after the successful call [update_lcd] runs once.  Where
    [update_lcd] is defined, [sd_setup] reaches its loop with the logger
    state untouched; where it is not (a volume whose sector count comes out
    as zero), neither is [sd_setup].  While every call fails, [sd_setup]
    does not get past the mount loop. *)
Theorem sd_setup_mount_retries (o : oracle) (s : sys) (k : nat)
    (more : list bool) (mount_rs : list FRESULT) :
  (forall fails rest,
      mount_rs = fails ++ FR_OK :: rest ->
      Forall (fun r => r <> FR_OK) fails ->
      (forall tl,
          update_lcd o (sdbuf s) = Some tl ->
          sd_setup_mount o (replicate k false ++ true :: more) mount_rs s
          = Done s (concat (replicate k [EDelay 250; ELcdDebug MsgInsertCard])
                    ++ [ELcdDebug MsgEmpty]
                    ++ (flat_map (fun fr => [EMount fr; EUart (MsgMountFail fr);
                                             EDelay 100]) fails
                        ++ [EMount FR_OK])
                    ++ tl))
      /\ (update_lcd o (sdbuf s) = None ->
          sd_setup_mount o (replicate k false ++ true :: more) mount_rs s
          = Undefined))
  /\ (Forall (fun r => r <> FR_OK) mount_rs ->
      exists t,
        sd_setup_mount o (replicate k false ++ true :: more) mount_rs s
        = Blocked s t
        /\ storage_calls t = map EMount mount_rs).
Proof.
  split.
  - intros fails rest -> Hfails. unfold sd_setup_mount, mount_retry.
    rewrite card_wait_present, retry_exact by assumption.
    unfold then_update_lcd. split.
    + intros tl ->. now rewrite <- !app_assoc.
    + intros ->. reflexivity.
  - intros Hall. unfold sd_setup_mount.
    rewrite card_wait_present.
    destruct (retry_blocked (fun fr => [EUart (MsgMountFail fr); EDelay 100])
                EMount [] ltac:(reflexivity) ltac:(reflexivity)
                ltac:(reflexivity) mount_rs Hall) as (t & Ht & Hc).
    unfold mount_retry. rewrite Ht. eexists. split; [reflexivity|].
    rewrite !storage_calls_app, Hc.
    replace (storage_calls (concat (replicate k [EDelay 250;
                                                 ELcdDebug MsgInsertCard])))
      with (@nil io); [reflexivity|].
    induction k as [|k IH]; [reflexivity|]. exact IH.
Qed.

Lemma sd_setup_mount_retries_witness :
  let o := mkOracle [] 0 0 [] 1 100 2000 8 4096 in
  let s := sys_init (replicate 1024 x00) 1024 0 in
  let tl := [EGetFree; ELcdRow 4 (MsgFree 7 7 95); ELcdRow 2 (MsgBuffer 0);
             ELcdRow 3 (MsgFile 4)] in
  [3; 3; 1; 0] = [3; 3; 1] ++ FR_OK :: []
  /\ Forall (fun r => r <> FR_OK) [3; 3; 1]
  /\ update_lcd o (sdbuf s) = Some tl
  /\ sd_setup_mount o (replicate 1 false ++ true :: []) [3; 3; 1; 0] s
     = Done s (concat (replicate 1 [EDelay 250; ELcdDebug MsgInsertCard])
               ++ [ELcdDebug MsgEmpty]
               ++ (flat_map (fun fr => [EMount fr; EUart (MsgMountFail fr);
                                        EDelay 100]) [3; 3; 1]
                   ++ [EMount FR_OK])
               ++ tl).
Proof.
  intros o s tl.
  assert (H1 : [3; 3; 1; 0] = [3; 3; 1] ++ FR_OK :: []) by reflexivity.
  assert (H2 : Forall (fun r => r <> FR_OK) [3; 3; 1])
    by (repeat constructor; discriminate).
  assert (H3 : update_lcd o (sdbuf s) = Some tl) by reflexivity.
  split; [exact H1|]. split; [exact H2|]. split; [exact H3|].
  exact (proj1 (proj1 (sd_setup_mount_retries o s 1 [] [3; 3; 1; 0])
                  [3; 3; 1] [] H1 H2) tl H3).
Defined.

(** X9: with logging switched on and no file open, as long as every
    [f_open] fails the pass of the supervisor stays in the retry loop: the
    calls made are exactly the failed ones, [file_open] stays clear, the
    overflow flag is not cleared and nothing is drained. *)
Theorem open_on_start_blocked (o : oracle) (s : sys) :
  logger_running s <> 0 -> file_open s = 0 ->
  Forall (fun r => r <> FR_OK) (open_rs o) ->
  exists t,
    open_on_start o s = Blocked s t
    /\ sd_loop_body o s = Blocked s t
    /\ storage_calls t = map EOpen (open_rs o).
Proof.
  intros Hrun Hclosed Hall.
  destruct (retry_blocked (fun fr => [EDelay 500; EUart (MsgOpenFail fr)])
              EOpen [] ltac:(reflexivity) ltac:(reflexivity)
              ltac:(reflexivity) (open_rs o) Hall) as (t & Ht & Hc).
  assert (Hop : open_on_start o s = Blocked s t).
  { unfold open_on_start, open_retry. rewrite Ht.
    destruct (Z.eqb_spec (logger_running s) 0); [contradiction|].
    destruct (Z.eqb_spec (file_open s) 0); [reflexivity|contradiction]. }
  exists t. split; [exact Hop|]. split; [|exact Hc].
  unfold sd_loop_body. rewrite Hop. reflexivity.
Qed.

Lemma open_on_start_blocked_witness :
  let s := mkSys (mkRingBuffer (replicate 8 x00) 5 5 8 7 1) (replicate 512 x00)
             1 0 900 16 in
  let o := mkOracle [5; 4] 0 0 [] 1 0 0 0 0 in
  logger_running s <> 0 /\ file_open s = 0
  /\ Forall (fun r => r <> FR_OK) (open_rs o)
  /\ exists t,
       open_on_start o s = Blocked s t
       /\ sd_loop_body o s = Blocked s t
       /\ storage_calls t = map EOpen (open_rs o).
Proof.
  intros s o.
  assert (H1 : logger_running s <> 0) by (vm_compute; discriminate).
  assert (H2 : file_open s = 0) by reflexivity.
  assert (H3 : Forall (fun r => r <> FR_OK) (open_rs o))
    by (repeat constructor; vm_compute; discriminate).
  split; [exact H1|]. split; [exact H2|]. split; [exact H3|].
  exact (open_on_start_blocked o s H1 H2 H3).
Defined.

(** ** Draining one block *)

Lemma drain_block_one_block_witness :
  let s := mkSys (mkRingBuffer (replicate 1024 x2a) 520 0 1024 1023 0)
             (replicate 512 x00) 1 1 300 16 in
  let o := mkOracle [] 0 0 [] 1 0 0 0 0 in
  rb_wf (sdbuf s) /\ 512 < rb_getused_m (sdbuf s)
  /\ file_open s <> 0 /\ logger_running s <> 0
  /\ length (writebuf s) = 512%nat
  /\ exists s1 t,
       drain_block o s = Done s1 t
       /\ storage_calls t
          = [EWrite (take 512 (contents (sdbuf s))) (write_fr o)]
       /\ rb_getused_m (sdbuf s1) = rb_getused_m (sdbuf s) - 512
       /\ contents (sdbuf s1) = drop 512 (contents (sdbuf s)).
Proof.
  intros s o.
  assert (H1 : rb_wf (sdbuf s)).
  { constructor; simpl; try lia; try (rewrite length_replicate; reflexivity).
    exists 10. split; [lia|reflexivity]. }
  assert (H2 : 512 < rb_getused_m (sdbuf s)) by (vm_compute; reflexivity).
  assert (H3 : file_open s <> 0) by (vm_compute; discriminate).
  assert (H4 : logger_running s <> 0) by (vm_compute; discriminate).
  assert (H5 : length (writebuf s) = 512%nat) by apply length_replicate.
  split; [exact H1|]. split; [exact H2|]. split; [exact H3|].
  split; [exact H4|]. split; [exact H5|].
  exact (drain_block_one_block o s H1 H2 H3 H4 H5).
Defined.

(** ** The timer tick *)

Lemma contents_set_overflow o b : contents (set_overflow o b) = contents b.
Proof. reflexivity. Qed.

(** X10: with a file open and room for the sample that leaves a slot of the
    array unused, the tick appends the sample to the unread bytes, raises
    the occupancy by its size and touches nothing else; it triggers the
    ADC conversion, steps the accelerometer exactly when the tick count is a
    multiple of 100, and calls nothing else. *)
Theorem tick_appends_sample (s : sys) (sample : list byte) (clk : Z) :
  rb_wf (sdbuf s) -> file_open s <> 0 ->
  rb_getused_m (sdbuf s) + Z.of_nat (length sample) < len (sdbuf s) ->
  exists s',
    TIMER1_A0_ISR sample clk s
    = Done s' (EAdcConvert
               :: (if u32 clk mod 100 =? 0 then [EAccelFSM] else []))
    /\ contents (sdbuf s') = contents (sdbuf s) ++ sample
    /\ rb_getused_m (sdbuf s')
       = rb_getused_m (sdbuf s) + Z.of_nat (length sample)
    /\ overflow (sdbuf s') = overflow (sdbuf s)
    /\ tail (sdbuf s') = tail (sdbuf s)
    /\ set_sdbuf (sdbuf s) s' = s.
Proof.
  intros Hwf Hopen Hroom.
  pose proof (rb_getused_m_range _ Hwf) as Hused.
  pose proof (rb_getfree_m_wf _ Hwf) as Hfree.
  destruct (ringbuf_write_contents (sdbuf s) sample (Z.of_nat (length sample))
              Hwf ltac:(lia) ltac:(lia) ltac:(lia))
    as (b' & Hw & Hwf' & _ & Ht & _ & Ho & Hu & Hc).
  destruct (Z.ltb_spec (rb_getused_m (sdbuf s) + Z.of_nat (length sample))
              (len (sdbuf s))); [|lia].
  unfold TIMER1_A0_ISR. rewrite Hw.
  destruct (Z.eqb_spec (file_open s) 0); [contradiction|].
  eexists. split; [reflexivity|]. simpl.
  rewrite Hc, take_ge by lia. repeat apply conj; auto.
  destruct s; reflexivity.
Qed.

Lemma tick_appends_sample_witness :
  let s := mkSys (mkRingBuffer [x61; x62; x00; x00; x00; x00; x00; x00]
                    2 0 8 7 0) (replicate 512 x00) 1 1 300 16 in
  let sample := [x01; x02; x03; x04] in
  rb_wf (sdbuf s) /\ file_open s <> 0
  /\ rb_getused_m (sdbuf s) + Z.of_nat (length sample) < len (sdbuf s)
  /\ exists s',
       TIMER1_A0_ISR sample 400 s
       = Done s' (EAdcConvert
                  :: (if u32 400 mod 100 =? 0 then [EAccelFSM] else []))
       /\ contents (sdbuf s') = contents (sdbuf s) ++ sample
       /\ rb_getused_m (sdbuf s')
          = rb_getused_m (sdbuf s) + Z.of_nat (length sample)
       /\ overflow (sdbuf s') = overflow (sdbuf s)
       /\ tail (sdbuf s') = tail (sdbuf s)
       /\ set_sdbuf (sdbuf s) s' = s.
Proof.
  intros s sample.
  assert (H1 : rb_wf (sdbuf s)).
  { constructor; simpl; try lia. exists 3. split; [lia|reflexivity]. }
  assert (H2 : file_open s <> 0) by (vm_compute; discriminate).
  assert (H3 : rb_getused_m (sdbuf s) + Z.of_nat (length sample)
               < len (sdbuf s)) by (vm_compute; reflexivity).
  split; [exact H1|]. split; [exact H2|]. split; [exact H3|].
  exact (tick_appends_sample s sample 400 H1 H2 H3).
Defined.

(** X11: on a well-formed buffer the tick always runs to its end, whatever
    the sample and the state of the logger; it makes no call into the storage
    driver and always triggers the ADC conversion.  With no file open it
    changes nothing; when the sample is not accepted the unread bytes stay
    as they are, the sample is dropped and never retried. *)
Theorem tick_never_blocks (s : sys) (sample : list byte) (clk : Z) :
  rb_wf (sdbuf s) ->
  exists s' t,
    TIMER1_A0_ISR sample clk s = Done s' (EAdcConvert :: t)
    /\ storage_calls (EAdcConvert :: t) = []
    /\ rb_wf (sdbuf s')
    /\ (file_open s = 0 -> s' = s)
    /\ (tick_accepts s sample = false ->
        contents (sdbuf s') = contents (sdbuf s)
        /\ head (sdbuf s') = head (sdbuf s)
        /\ buffer (sdbuf s') = buffer (sdbuf s)).
Proof.
  intros Hwf.
  assert (Hq : storage_calls
                 (EAdcConvert
                  :: (if u32 clk mod 100 =? 0 then [EAccelFSM] else [])) = [])
    by (destruct (u32 clk mod 100 =? 0); reflexivity).
  unfold TIMER1_A0_ISR, tick_accepts.
  destruct (Z.eqb_spec (file_open s) 0) as [Hclosed|Hopen].
  - eexists _, _. split; [reflexivity|]. repeat apply conj; auto.
  - set (n := Z.of_nat (length sample)).
    destruct (Z.le_gt_cases (len (sdbuf s)) n) as [Hbig|Hsmall].
    + rewrite ringbuf_write_reject by assumption.
      eexists _, _. split; [reflexivity|]. simpl.
      repeat apply conj; auto. contradiction.
    + destruct (Z.lt_ge_cases (rb_getfree_m (sdbuf s)) n) as [Hno|Hroom].
      * rewrite ringbuf_write_no_room by assumption.
        eexists _, _. split; [reflexivity|]. simpl.
        repeat apply conj; auto; try contradiction.
        now apply rb_wf_set_overflow.
      * destruct (ringbuf_write_contents (sdbuf s) sample n Hwf)
          as (b' & Hw & Hwf' & _); try (unfold n; lia).
        rewrite Hw. eexists _, _. split; [reflexivity|]. simpl.
        repeat apply conj; auto; try contradiction.
        destruct (Z.ltb_spec n (len (sdbuf s))); [|lia].
        destruct (Z.ltb_spec (rb_getfree_m (sdbuf s)) n); [lia|].
        simpl. discriminate.
Qed.

Lemma tick_never_blocks_witness :
  let s := mkSys (mkRingBuffer (replicate 8 x00) 5 0 8 7 0) (replicate 512 x00)
             1 1 300 16 in
  rb_wf (sdbuf s)
  /\ exists s' t,
       TIMER1_A0_ISR [x01; x02; x03; x04] 7 s = Done s' (EAdcConvert :: t)
       /\ storage_calls (EAdcConvert :: t) = []
       /\ rb_wf (sdbuf s')
       /\ (file_open s = 0 -> s' = s)
       /\ (tick_accepts s [x01; x02; x03; x04] = false ->
           contents (sdbuf s') = contents (sdbuf s)
           /\ head (sdbuf s') = head (sdbuf s)
           /\ buffer (sdbuf s') = buffer (sdbuf s)).
Proof.
  intros s.
  assert (H1 : rb_wf (sdbuf s)).
  { constructor; simpl; try lia. exists 3. split; [lia|reflexivity]. }
  split; [exact H1|].
  exact (tick_never_blocks s [x01; x02; x03; x04] 7 H1).
Defined.

(** ** The timer follows [logger_running] *)

Lemma ta1ctl_stop_bits c : Z.land (Z.land c (u16 (Z.lnot MC_3))) MC_3 = 0.
Proof.
  change (u16 (Z.lnot MC_3)) with 65487. rewrite <- Z.land_assoc.
  change (Z.land 65487 MC_3) with 0. apply Z.land_0_r.
Qed.

Lemma ta1ctl_up_bits c :
  Z.land (Z.lor (Z.land c (u16 (Z.lnot MC_3))) MC_1) MC_3 = MC_1.
Proof.
  rewrite Z.land_lor_distr_l, ta1ctl_stop_bits. reflexivity.
Qed.

Lemma ta1ctl_other_bits c :
  Z.land (Z.lor (Z.land c (u16 (Z.lnot MC_3))) MC_1) (u16 (Z.lnot MC_3))
  = Z.land c (u16 (Z.lnot MC_3)).
Proof.
  rewrite Z.land_lor_distr_l, <- Z.land_assoc, Z.land_diag.
  change (Z.land MC_1 (u16 (Z.lnot MC_3))) with 0. apply Z.lor_0_r.
Qed.

(** X12: [logger_enable] sets [logger_running] and puts the mode bits of
    [TA1CTL] in up mode; [logger_disable] clears [logger_running] and the
    mode bits; both leave the other bits of the 16-bit register,
    the buffer, [file_open] and the debounce time as they are, and each
    undoes the other on the mode bits whatever they were before. *)
Theorem logger_enable_disable_timer (s : sys) :
  let on := fst (logger_enable s) in
  let off := fst (logger_disable s) in
  (logger_running on = 1 /\ Z.land (ta1ctl on) MC_3 = MC_1
   /\ Z.land (ta1ctl on) (u16 (Z.lnot MC_3))
      = Z.land (ta1ctl s) (u16 (Z.lnot MC_3))
   /\ sdbuf on = sdbuf s /\ file_open on = file_open s /\ time on = time s)
  /\ (logger_running off = 0 /\ Z.land (ta1ctl off) MC_3 = 0
      /\ ta1ctl off = Z.land (ta1ctl s) (u16 (Z.lnot MC_3))
      /\ sdbuf off = sdbuf s /\ file_open off = file_open s
      /\ time off = time s)
  /\ ta1ctl (fst (logger_disable on)) = ta1ctl off
  /\ ta1ctl (fst (logger_enable off)) = ta1ctl on.
Proof.
  simpl. repeat apply conj; try reflexivity.
  - apply ta1ctl_up_bits.
  - apply ta1ctl_other_bits.
  - apply ta1ctl_stop_bits.
  - apply ta1ctl_other_bits.
  - now rewrite <- Z.land_assoc, Z.land_diag.
Qed.

Lemma sd_write_control fr n s s' t :
  sd_write fr n s = Done s' t ->
  logger_running s' = logger_running s /\ ta1ctl s' = ta1ctl s
  /\ file_open s' = file_open s /\ time s' = time s.
Proof.
  unfold sd_write.
  destruct (ringbuf_read (sdbuf s) (writebuf s) n) as [[[r b'] wb']|];
    [|discriminate].
  destruct ((0 <=? n) && (n <=? Z.of_nat (length wb'))); [|discriminate].
  intros [= <- <-]. auto.
Qed.

(** Neither a tick nor a pass of the supervisor writes [logger_running],
    [TA1CTL] or the debounce time. *)
Lemma sys_step_control s e s' t :
  sys_step s e = Done s' t ->
  (forall p1iv clk, e <> Button1 p1iv clk) ->
  logger_running s' = logger_running s /\ ta1ctl s' = ta1ctl s
  /\ time s' = time s.
Proof.
  destruct e as [sample clk|p1iv clk|o]; simpl; intros Hstep Hnb.
  - unfold TIMER1_A0_ISR in Hstep.
    destruct (file_open s =? 0); [now injection Hstep as <- _|].
    destruct (ringbuf_write _ _ _) as [[r b']|]; [|discriminate].
    now injection Hstep as <- _.
  - now destruct (Hnb p1iv clk).
  - unfold sd_loop_body in Hstep.
    apply andthen_Done in Hstep as (s3 & t3 & t4 & H & Hst & _).
    apply andthen_Done in H as (s2 & t2 & t5 & H & Hdr & _).
    apply andthen_Done in H as (s1 & t1 & t6 & Hop & Hcl & _).
    apply status_refresh_Done in Hst as ->.
    assert (H1 : logger_running s1 = logger_running s /\ ta1ctl s1 = ta1ctl s
                 /\ time s1 = time s).
    { apply open_on_start_Done in Hop as [(_ & _ & ->)|(_ & ->)]; auto. }
    assert (H2 : logger_running s2 = logger_running s1 /\ ta1ctl s2 = ta1ctl s1
                 /\ time s2 = time s1).
    { unfold close_on_stop in Hcl.
      destruct ((logger_running s1 =? 0) && negb (file_open s1 =? 0));
        [|injection Hcl as <- _; auto].
      apply andthen_Done in Hcl as (s1' & t1' & t2' & Hw & Hc & _).
      apply sd_write_control in Hw as (? & ? & _ & ?).
      destruct (close_retry (close_rs o)) as [[|] t0]; [|discriminate].
      injection Hc as <- _. auto. }
    assert (H3 : logger_running s3 = logger_running s2 /\ ta1ctl s3 = ta1ctl s2
                 /\ time s3 = time s2).
    { unfold drain_block in Hdr.
      destruct (_ && _ && _); [|injection Hdr as <- _; auto].
      apply sd_write_control in Hdr as (? & ? & _ & ?). auto. }
    destruct H1 as (? & ? & ?), H2 as (? & ? & ?), H3 as (? & ? & ?).
    repeat split; congruence.
Qed.

Lemma timer_mode_step s e s' t :
  sys_step s e = Done s' t ->
  (logger_running s = 0 /\ Z.land (ta1ctl s) MC_3 = 0)
  \/ (logger_running s = 1 /\ Z.land (ta1ctl s) MC_3 = MC_1) ->
  (logger_running s' = 0 /\ Z.land (ta1ctl s') MC_3 = 0)
  \/ (logger_running s' = 1 /\ Z.land (ta1ctl s') MC_3 = MC_1).
Proof.
  intros Hstep Hinv.
  destruct e as [sample clk|p1iv clk|o].
  - apply sys_step_control in Hstep as (-> & -> & _); [assumption|discriminate].
  - simpl in Hstep. unfold PORT1_ISR in Hstep.
    destruct (_ && _); [|now injection Hstep as <- _].
    simpl in Hstep. destruct (logger_running s =? 0); injection Hstep as <- _.
    + right. simpl. split; [reflexivity|apply ta1ctl_up_bits].
    + left. simpl. split; [reflexivity|apply ta1ctl_stop_bits].
  - apply sys_step_control in Hstep as (-> & -> & _); [assumption|discriminate].
Qed.

(** X13: in every state the logger reaches from a start with the timer
    stopped, [logger_running] is 0 or 1 and the mode bits of [TA1CTL] say
    the same: stopped when it is 0, up mode when it is 1.  The sampling
    timer runs exactly while logging is switched on. *)
Theorem timer_follows_logger_running (ringbuf : list byte)
    (SD_RINGBUF_LEN ctl : Z) (s : sys) :
  Z.land ctl MC_3 = 0 ->
  reachable ringbuf SD_RINGBUF_LEN ctl s ->
  (logger_running s = 0 /\ Z.land (ta1ctl s) MC_3 = 0)
  \/ (logger_running s = 1 /\ Z.land (ta1ctl s) MC_3 = MC_1).
Proof.
  intros Hctl (es & t & Hrun).
  assert (Hgen : forall es s0 s1 t1,
             sys_run s0 es = Done s1 t1 ->
             (logger_running s0 = 0 /\ Z.land (ta1ctl s0) MC_3 = 0)
             \/ (logger_running s0 = 1 /\ Z.land (ta1ctl s0) MC_3 = MC_1) ->
             (logger_running s1 = 0 /\ Z.land (ta1ctl s1) MC_3 = 0)
             \/ (logger_running s1 = 1 /\ Z.land (ta1ctl s1) MC_3 = MC_1)).
  { clear. induction es as [|e es IH]; intros s0 s1 t1; simpl.
    - now intros [= <- <-].
    - intros H Hinv. apply andthen_Done in H as (s2 & t2 & t3 & Hs & Hr & _).
      apply (IH s2 s1 t3 Hr). exact (timer_mode_step s0 e s2 t2 Hs Hinv). }
  apply (Hgen es _ s t Hrun). left. split; [reflexivity|exact Hctl].
Qed.

Lemma timer_follows_logger_running_witness :
  let o := mkOracle [0] 0 0 [0] 1 0 0 0 0 in
  let s := mkSys (mkRingBuffer ([x01; x02; x03] ++ replicate 5 x00) 3 0 8 7 0)
             (replicate 512 x00) 1 1 300 528 in
  Z.land 512 MC_3 = 0
  /\ reachable (replicate 8 x00) 8 512 s
  /\ ((logger_running s = 0 /\ Z.land (ta1ctl s) MC_3 = 0)
      \/ (logger_running s = 1 /\ Z.land (ta1ctl s) MC_3 = MC_1)).
Proof.
  intros o s.
  assert (H1 : Z.land 512 MC_3 = 0) by reflexivity.
  assert (H2 : reachable (replicate 8 x00) 8 512 s).
  { exists [Button1 16 300; Loop o; Tick [x01; x02; x03] 301]. eexists.
    vm_compute. reflexivity. }
  split; [exact H1|]. split; [exact H2|].
  exact (timer_follows_logger_running (replicate 8 x00) 8 512 s H1 H2).
Defined.

(** ** From the samples to the file *)

Lemma written_app t1 t2 : written (t1 ++ t2) = written t1 ++ written t2.
Proof. unfold written. now rewrite map_app, concat_app. Qed.

Lemma written_cons e t : written (e :: t) = written [e] ++ written t.
Proof. unfold written. simpl. now rewrite app_nil_r. Qed.

Lemma written_storage_calls t : written (storage_calls t) = written t.
Proof.
  induction t as [|e t IH]; [reflexivity|].
  rewrite (written_cons e t), <- IH.
  destruct e; try reflexivity;
    change (storage_calls (?e :: t)) with (e :: storage_calls t);
    match goal with |- written (?e :: ?l) = _ => apply (written_cons e l) end.
Qed.



(** What a completed [sd_write] of no more than the unread bytes did. *)
Lemma sd_write_Done fr n s s' t :
  rb_wf (sdbuf s) -> 0 <= n <= rb_getused_m (sdbuf s) ->
  sd_write fr n s = Done s' t ->
  written t = take (Z.to_nat n) (contents (sdbuf s))
  /\ contents (sdbuf s') = drop (Z.to_nat n) (contents (sdbuf s))
  /\ rb_getused_m (sdbuf s') = rb_getused_m (sdbuf s) - n
  /\ rb_wf (sdbuf s') /\ file_open s' = file_open s
  /\ logger_running s' = logger_running s.
Proof.
  intros Hwf Hn Hdone.
  assert (Hfit : n <= Z.of_nat (length (writebuf s))).
  { revert Hdone. unfold sd_write.
    destruct (ringbuf_read (sdbuf s) (writebuf s) n) as [[[r b'] wb']|] eqn:Hr;
      [|discriminate].
    pose proof (ringbuf_read_length _ _ _ _ _ _ Hr) as Hlen.
    destruct (Z.leb_spec 0 n); [|discriminate].
    destruct (Z.leb_spec n (Z.of_nat (length wb'))); [|discriminate].
    intros _. lia. }
  destruct (sd_write_take fr n s Hwf Hn Hfit)
    as (s1 & t1 & Hw & Hcalls & Hwf1 & Hu & Hc & _ & Hr & Hf).
  rewrite Hw in Hdone. injection Hdone as <- <-.
  split; [|auto 10].
  rewrite <- written_storage_calls, Hcalls. unfold written. simpl.
  apply app_nil_r.
Qed.





(** The run of the witness, evaluated: the six sample bytes reach [f_write]
    in order, in the one write of the closing pass. *)
Example storage_stream_run :
  let o := mkOracle [0] 0 0 [0] 1 0 0 0 0 in
  let s := sys_init (replicate 16 x00) 16 0 in
  let es := [Button1 16 300; Loop o; Tick [x01; x02; x03] 301;
             Tick [x04; x05; x06] 302; Button1 16 600; Loop o] in
  logged s es = [x01; x02; x03; x04; x05; x06]
  /\ exists s' t, sys_run s es = Done s' t
                  /\ written t = [x01; x02; x03; x04; x05; x06]
                  /\ contents (sdbuf s') = [].
Proof.
  intros o s es. split; [vm_compute; reflexivity|].
  eexists _, _. split; [vm_compute; reflexivity|]. split; reflexivity.
Qed.

(** ** The buffer between sessions *)

Lemma close_on_stop_preempted_nil o s :
  close_on_stop_preempted o [] s = close_on_stop o s.
Proof.
  unfold close_on_stop_preempted, close_on_stop.
  destruct (_ && _); [|reflexivity].
  destruct (sd_write _ _ s) as [s1 tw|s1 tw|]; try reflexivity.
  simpl. rewrite app_nil_r.
  destruct (close_retry (close_rs o)) as [[|] t]; reflexivity.
Qed.

(** X15: the pass that closes the file can leave bytes in the buffer.
    Served with no interrupt, the closing branch is [close_on_stop], which
    drains the buffer before it clears [file_open].  When the button is
    pressed again while the file is being closed, and the edge is past the
    debounce interval, logging is switched on with the old file still open:
    the next tick stores its sample, and the pass then clears [file_open].
    All the bytes of the session before have gone to [f_write]; no file is
    open, logging is on and the buffer holds the sample. *)
Theorem restart_while_closing_keeps_sample (o : oracle) (s : sys)
    (sample : list byte) (clk clk' : Z) (fails rest : list FRESULT) :
  rb_wf (sdbuf s) -> logger_running s = 0 -> file_open s <> 0 ->
  rb_getused_m (sdbuf s) <= Z.of_nat (length (writebuf s)) ->
  250 < u32 (clk - time s) ->
  Z.of_nat (length sample) < len (sdbuf s) ->
  close_rs o = fails ++ FR_OK :: rest ->
  Forall (fun r => r <> FR_OK) fails ->
  close_on_stop_preempted o [] s = close_on_stop o s
  /\ exists s' t,
       close_on_stop_preempted o
         [IButton1 P1IV_P1IFG7 clk; ITick sample clk'] s = Done s' t
       /\ written t = contents (sdbuf s)
       /\ storage_calls t
          = EWrite (contents (sdbuf s)) (write_fr o) :: ESync (sync_fr o)
            :: map EClose (fails ++ [FR_OK])
       /\ file_open s' = 0 /\ logger_running s' = 1
       /\ contents (sdbuf s') = sample
       /\ rb_getused_m (sdbuf s') = Z.of_nat (length sample).
Proof.
  intros Hwf Hstop Hopen Hfit Hedge Hsmall Hrs Hfails.
  split; [apply close_on_stop_preempted_nil|].
  pose proof (rb_getused_m_range _ Hwf) as Hused.
  pose proof (contents_length _ Hwf) as Hcl.
  destruct (sd_write_take (write_fr o) (rb_getused_m (sdbuf s)) s Hwf
              ltac:(lia) Hfit)
    as (s1 & tw & Hw & Hcw & Hwf1 & Hu1 & Hc1 & _ & Hr1 & Hf1).
  pose proof (sd_write_control _ _ _ _ _ Hw) as (_ & _ & _ & Ht1).
  rewrite take_ge in Hcw by lia.
  rewrite drop_ge in Hc1 by lia.
  pose proof (sd_write_len _ _ _ _ _ Hw) as Hl1.
  pose proof (sd_write_Done (write_fr o) (rb_getused_m (sdbuf s)) s s1 tw Hwf
                ltac:(lia) Hw) as (Hwt & _).
  rewrite take_ge in Hwt by lia.
  pose proof (rb_getfree_m_wf _ Hwf1) as Hfree.
  destruct (ringbuf_write_contents (sdbuf s1) sample
              (Z.of_nat (length sample)) Hwf1 ltac:(lia) ltac:(lia)
              ltac:(lia))
    as (b' & Hwr & _ & _ & _ & _ & _ & Hu' & Hc').
  destruct (Z.ltb_spec (rb_getused_m (sdbuf s1) + Z.of_nat (length sample))
              (len (sdbuf s1))); [|lia].
  rewrite Hc1, take_ge in Hc' by lia. simpl in Hc'.
  destruct (close_retry_succeeds fails rest Hfails) as (tc & Htc & Hcc).
  assert (Hbtn : PORT1_ISR P1IV_P1IFG7 clk s1
                 = logger_enable (set_time clk s1)).
  { unfold PORT1_ISR. rewrite Ht1.
    destruct (Z.ltb_spec 250 (u32 (clk - time s))); [|lia].
    simpl. rewrite Hr1, Hstop. reflexivity. }
  assert (Hphase : (logger_running s =? 0) && negb (file_open s =? 0) = true).
  { rewrite Hstop. destruct (Z.eqb_spec (file_open s) 0); [contradiction|].
    reflexivity. }
  assert (Htick : TIMER1_A0_ISR sample clk' (fst (logger_enable (set_time clk s1)))
                  = Done (set_sdbuf b' (fst (logger_enable (set_time clk s1))))
                      (EAdcConvert
                       :: (if u32 clk' mod 100 =? 0 then [EAccelFSM] else []))).
  { unfold TIMER1_A0_ISR. simpl.
    destruct (Z.eqb_spec (file_open s1) 0); [congruence|].
    now rewrite Hwr. }
  eexists _, _. split.
  { unfold close_on_stop_preempted. rewrite Hphase, Hw. simpl.
    rewrite Hbtn. simpl fst in Htick. simpl. rewrite Htick, Hrs, Htc.
    reflexivity. }
  split.
  { rewrite !written_app, Hwt.
    pose proof (written_storage_calls tc) as Hwc. rewrite Hcc in Hwc.
    rewrite <- Hwc.
    replace (written (map EClose (fails ++ [FR_OK]))) with (@nil byte)
      by (clear; induction (fails ++ [FR_OK]); [reflexivity|assumption]).
    destruct (sync_fr o =? FR_OK), (u32 clk' mod 100 =? 0); simpl;
      now rewrite !app_nil_r. }
  split.
  { rewrite !storage_calls_app, Hcw, Hcc.
    destruct (sync_fr o =? FR_OK), (u32 clk' mod 100 =? 0); reflexivity. }
  split; [reflexivity|]. split; [reflexivity|].
  split; [exact Hc'|]. simpl. lia.
Qed.

Lemma restart_while_closing_keeps_sample_witness :
  let s := mkSys (mkRingBuffer [x61; x62; x63; x64; x65; x66; x67; x68] 1 6 8 7 0)
             (replicate 512 x00) 0 1 600 0 in
  let o := mkOracle [] 0 0 [7; 0] 1 0 0 0 0 in
  let sample := [x01; x02; x03] in
  rb_wf (sdbuf s) /\ logger_running s = 0 /\ file_open s <> 0
  /\ rb_getused_m (sdbuf s) <= Z.of_nat (length (writebuf s))
  /\ 250 < u32 (900 - time s)
  /\ Z.of_nat (length sample) < len (sdbuf s)
  /\ close_rs o = [7] ++ FR_OK :: []
  /\ Forall (fun r => r <> FR_OK) [7]
  /\ close_on_stop_preempted o [] s = close_on_stop o s
  /\ exists s' t,
       close_on_stop_preempted o
         [IButton1 P1IV_P1IFG7 900; ITick sample 901] s = Done s' t
       /\ written t = contents (sdbuf s)
       /\ storage_calls t
          = EWrite (contents (sdbuf s)) (write_fr o) :: ESync (sync_fr o)
            :: map EClose ([7] ++ [FR_OK])
       /\ file_open s' = 0 /\ logger_running s' = 1
       /\ contents (sdbuf s') = sample
       /\ rb_getused_m (sdbuf s') = Z.of_nat (length sample).
Proof.
  intros s o sample.
  assert (H1 : rb_wf (sdbuf s)).
  { constructor; simpl; try lia. exists 3. split; [lia|reflexivity]. }
  assert (H2 : logger_running s = 0) by reflexivity.
  assert (H3 : file_open s <> 0) by (vm_compute; discriminate).
  assert (H4 : rb_getused_m (sdbuf s) <= Z.of_nat (length (writebuf s)))
    by (vm_compute; discriminate).
  assert (H5 : 250 < u32 (900 - time s)) by reflexivity.
  assert (H6 : Z.of_nat (length sample) < len (sdbuf s)) by reflexivity.
  assert (H7 : close_rs o = [7] ++ FR_OK :: []) by reflexivity.
  assert (H8 : Forall (fun r => r <> FR_OK) [7])
    by (repeat constructor; discriminate).
  split; [exact H1|]. split; [exact H2|]. split; [exact H3|].
  split; [exact H4|]. split; [exact H5|]. split; [exact H6|].
  split; [exact H7|]. split; [exact H8|].
  exact (restart_while_closing_keeps_sample o s sample 900 901 [7] []
           H1 H2 H3 H4 H5 H6 H7 H8).
Defined.

(** The interrupted closing, evaluated: three bytes unread at the stop go to
    [f_write]; the sample of the tick after the second press is in the
    buffer when [file_open] is cleared. *)
Example restart_while_closing_run :
  let s := mkSys (mkRingBuffer [x61; x62; x63; x64; x65; x66; x67; x68] 1 6 8 7 0)
             (replicate 512 x00) 0 1 600 0 in
  let o := mkOracle [] 0 0 [7; 0] 1 0 0 0 0 in
  exists s' t,
    close_on_stop_preempted o
      [IButton1 P1IV_P1IFG7 900; ITick [x01; x02; x03] 901] s = Done s' t
    /\ written t = [x67; x68; x61]
    /\ file_open s' = 0 /\ logger_running s' = 1
    /\ head (sdbuf s') = 4 /\ tail (sdbuf s') = 1
    /\ contents (sdbuf s') = [x01; x02; x03].
Proof.
  intros s o. eexists _, _. split; [vm_compute; reflexivity|]. repeat split.
Qed.

(** ** The status display *)

(** X16: [update_lcd] is defined exactly for a volume whose sector count
    [tot_sect = (n_fatent - 2) * csize], taken modulo 2^32, is not zero; for
    a zero count the division [(100*fre_sect)/tot_sect] has no value.  Where
    it is defined, and the well-formed buffer has at most 655 bytes unread,
    the product [100*rb_getused_m(buf)] fits the 16-bit arithmetic of the
    target and the display shows, after the call of [f_getfree], the storage
    figures in 32-bit arithmetic, the true percentage of the buffer, rounded
    down and below 100, and the file size in thousands of bytes; the
    overflow text follows exactly when the flag is set. *)
Theorem update_lcd_percentage (o : oracle) (buf : RingBuffer) :
  rb_wf buf -> rb_getused_m buf <= 655 ->
  (u32 (u32 (n_fatent o - 2) * csize o) <> 0 ->
   update_lcd o buf
   = Some ([EGetFree;
            ELcdRow 4
              (MsgFree (u32 (u32 (u32 (n_fatent o - 2) * csize o)
                             - u32 (fre_clust o * csize o)) / 2000)
                       (u32 (u32 (n_fatent o - 2) * csize o) / 2000)
                       (u32 (100 - u32 (100 * u32 (fre_clust o * csize o))
                                   / u32 (u32 (n_fatent o - 2) * csize o))));
            ELcdRow 2 (MsgBuffer (100 * rb_getused_m buf / len buf));
            ELcdRow 3 (MsgFile (u32 (fsz o) / 1000))]
           ++ (if overflow buf =? 0 then [] else [ELcdDebug MsgBufferOverflow])))
  /\ (u32 (u32 (n_fatent o - 2) * csize o) = 0 -> update_lcd o buf = None)
  /\ 0 <= 100 * rb_getused_m buf / len buf < 100.
Proof.
  intros Hwf Hsmall.
  pose proof (rb_getused_m_range _ Hwf) as Hused.
  pose proof (wf_len_range _ Hwf) as Hlen.
  split; [|split].
  - intros Htot. unfold update_lcd.
    destruct (Z.eqb_spec (u32 (u32 (n_fatent o - 2) * csize o)) 0);
      [contradiction|].
    destruct (Z.eqb_spec (len buf) 0); [lia|].
    simpl. rewrite u16_id by lia. reflexivity.
  - intros Htot. unfold update_lcd. rewrite Htot. reflexivity.
  - split.
    + apply Z.div_pos; lia.
    + apply Z.div_lt_upper_bound; lia.
Qed.

Lemma update_lcd_percentage_witness :
  let o := mkOracle [] 0 0 [] 1 100 2000 8 4096 in
  let buf := mkRingBuffer (replicate 1024 x00) 600 88 1024 1023 1 in
  rb_wf buf /\ rb_getused_m buf <= 655
  /\ u32 (u32 (n_fatent o - 2) * csize o) <> 0
  /\ update_lcd o buf
     = Some [EGetFree; ELcdRow 4 (MsgFree 7 7 95); ELcdRow 2 (MsgBuffer 50);
             ELcdRow 3 (MsgFile 4); ELcdDebug MsgBufferOverflow].
Proof.
  intros o buf.
  assert (H1 : rb_wf buf).
  { constructor; simpl; try lia; try (rewrite length_replicate; reflexivity).
    exists 10. split; [lia|reflexivity]. }
  assert (H2 : rb_getused_m buf <= 655) by (vm_compute; discriminate).
  assert (H3 : u32 (u32 (n_fatent o - 2) * csize o) <> 0)
    by (vm_compute; discriminate).
  split; [exact H1|]. split; [exact H2|]. split; [exact H3|].
  exact (proj1 (update_lcd_percentage o buf H1 H2) H3).
Defined.

(** Past 655 bytes the product wraps: with 656 of 1024 bytes unread the
    display shows 0 per cent. *)
Example update_lcd_wraps :
  let buf := mkRingBuffer (replicate 1024 x00) 656 0 1024 1023 0 in
  rb_getused_m buf = 656
  /\ update_lcd (mkOracle [] 0 0 [] 1 100 2000 8 4096) buf
     = Some [EGetFree; ELcdRow 4 (MsgFree 7 7 95); ELcdRow 2 (MsgBuffer 0);
             ELcdRow 3 (MsgFile 4)].
Proof. split; reflexivity. Qed.

(** A volume whose figures are all zero, as the structure is before any
    mount: [tot_sect] is [(0 - 2) * 0 = 0] and the division has no value. *)
Example update_lcd_zero_volume :
  update_lcd (mkOracle [] 0 0 [] 1 0 0 0 0)
    (sd_setup_ringbuf (replicate 1024 x00) 1024) = None.
Proof. reflexivity. Qed.

(** ** The debug UART *)

Lemma strlen_cons c l :
  c <> x00 -> strlen (c :: l) = n ← strlen l; Some (1 + n).
Proof. intros Hc. destruct c; first [contradiction | reflexivity]. Qed.

Lemma uart_tx_cons c l :
  c <> x00 -> _uart_tx (c :: l) = t ← _uart_tx l; Some (c :: t).
Proof. intros Hc. destruct c; first [contradiction | reflexivity]. Qed.

Lemma strlen_string body rest :
  Forall (fun c => c <> x00) body ->
  strlen (body ++ x00 :: rest) = Some (Z.of_nat (length body)).
Proof.
  induction 1 as [|c body Hc Hbody IH]; [reflexivity|].
  change ((c :: body) ++ x00 :: rest) with (c :: (body ++ x00 :: rest)).
  rewrite strlen_cons, IH by assumption. simpl. f_equal. lia.
Qed.

Lemma uart_tx_string body rest :
  Forall (fun c => c <> x00) body ->
  _uart_tx (body ++ x00 :: rest) = Some body.
Proof.
  induction 1 as [|c body Hc Hbody IH]; [reflexivity|].
  change ((c :: body) ++ x00 :: rest) with (c :: (body ++ x00 :: rest)).
  now rewrite uart_tx_cons, IH by assumption.
Qed.

(** X17: for a NUL-terminated string shorter than [UART_BUF_LEN],
    [uart_debug] transmits its characters in order followed by CR LF and
    nothing else.  For a string of [UART_BUF_LEN] characters or more (with
    [UART_BUF_LEN] above the 19 characters of the warning) it first
    transmits the warning line and then the whole string, untruncated,
    with its CR LF. *)
Theorem uart_debug_output (fuel : nat) (UART_BUF_LEN : Z)
    (body rest : list byte) :
  Forall (fun c => c <> x00) body ->
  (Z.of_nat (length body) < UART_BUF_LEN ->
   uart_debug (S fuel) UART_BUF_LEN (body ++ x00 :: rest)
   = Some (body ++ [x0d; x0a]))
  /\ (19 < UART_BUF_LEN -> UART_BUF_LEN <= Z.of_nat (length body) ->
      uart_debug (S (S fuel)) UART_BUF_LEN (body ++ x00 :: rest)
      = Some (take 19 uart_warning ++ [x0d; x0a] ++ body ++ [x0d; x0a])).
Proof.
  intros Hbody.
  assert (Hshort : forall f b r,
             Forall (fun c => c <> x00) b ->
             Z.of_nat (length b) < UART_BUF_LEN ->
             uart_debug (S f) UART_BUF_LEN (b ++ x00 :: r)
             = Some (b ++ [x0d; x0a])).
  { intros f b r Hb Hlt. simpl.
    rewrite strlen_string, uart_tx_string by assumption. simpl.
    destruct (Z.leb_spec UART_BUF_LEN (Z.of_nat (length b))); [lia|].
    reflexivity. }
  split.
  - intros Hlt. now apply Hshort.
  - intros Hbig Hlong.
    change (uart_debug (S (S fuel)) UART_BUF_LEN (body ++ x00 :: rest))
      with (n ← strlen (body ++ x00 :: rest);
            w ← (if UART_BUF_LEN <=? n
                 then uart_debug (S fuel) UART_BUF_LEN uart_warning
                 else Some []);
            t ← _uart_tx (body ++ x00 :: rest);
            e ← _uart_tx uart_crlf;
            Some (w ++ t ++ e)).
    assert (Hw : uart_debug (S fuel) UART_BUF_LEN uart_warning
                 = Some (take 19 uart_warning ++ [x0d; x0a])).
    { apply (Hshort fuel (take 19 uart_warning) []).
      - repeat constructor; discriminate.
      - simpl. lia. }
    rewrite Hw, strlen_string, uart_tx_string by assumption.
    destruct (Z.leb_spec UART_BUF_LEN (Z.of_nat (length body))) as [_|];
      [|lia].
    simpl. destruct (UART_BUF_LEN <=? Z.of_nat (length body)) eqn:Hle.
    + reflexivity.
    + apply Z.leb_gt in Hle. lia.
Qed.

Lemma uart_debug_output_witness :
  let body := [x48; x69] in
  Forall (fun c => c <> x00) body
  /\ (Z.of_nat (length body) < 64 ->
      uart_debug 1 64 (body ++ x00 :: [x7a]) = Some (body ++ [x0d; x0a]))
  /\ (19 < 64 -> 64 <= Z.of_nat (length body) ->
      uart_debug 2 64 (body ++ x00 :: [x7a])
      = Some (take 19 uart_warning ++ [x0d; x0a] ++ body ++ [x0d; x0a])).
Proof.
  intros body.
  assert (H1 : Forall (fun c => c <> x00) body)
    by (repeat constructor; discriminate).
  split; [exact H1|].
  exact (uart_debug_output 0 64 body [x7a] H1).
Defined.

(** A string of 20 characters against a limit of 20: the warning line, then
    the string itself. *)
Example uart_debug_long_string :
  uart_debug 2 20 (replicate 20 x41 ++ [x00])
  = Some (take 19 uart_warning ++ [x0d; x0a] ++ replicate 20 x41 ++ [x0d; x0a]).
Proof. reflexivity. Qed.

(** X18: if [UART_BUF_LEN] were 19 or less, the warning would itself be too
    long: for a string of [UART_BUF_LEN] characters or more [uart_debug]
    calls itself without end and never transmits anything, whatever depth
    of calls is allowed. *)
Theorem uart_debug_warning_recursion (UART_BUF_LEN : Z) (body rest : list byte) :
  Forall (fun c => c <> x00) body ->
  UART_BUF_LEN <= 19 -> UART_BUF_LEN <= Z.of_nat (length body) ->
  forall fuel, uart_debug fuel UART_BUF_LEN (body ++ x00 :: rest) = None.
Proof.
  intros Hbody Hsmall Hlong.
  assert (Hwarn : forall fuel, uart_debug fuel UART_BUF_LEN uart_warning = None).
  { induction fuel as [|fuel IH]; [reflexivity|].
    change (uart_debug (S fuel) UART_BUF_LEN uart_warning)
      with (n ← strlen uart_warning;
            w ← (if UART_BUF_LEN <=? n
                 then uart_debug fuel UART_BUF_LEN uart_warning
                 else Some []);
            t ← _uart_tx uart_warning;
            e ← _uart_tx uart_crlf;
            Some (w ++ t ++ e)).
    change (strlen uart_warning) with (Some 19). simpl mbind.
    destruct (Z.leb_spec UART_BUF_LEN 19); [|lia]. now rewrite IH. }
  intros [|fuel]; [reflexivity|].
  change (uart_debug (S fuel) UART_BUF_LEN (body ++ x00 :: rest))
    with (n ← strlen (body ++ x00 :: rest);
          w ← (if UART_BUF_LEN <=? n
               then uart_debug fuel UART_BUF_LEN uart_warning
               else Some []);
          t ← _uart_tx (body ++ x00 :: rest);
          e ← _uart_tx uart_crlf;
          Some (w ++ t ++ e)).
  rewrite strlen_string by assumption. simpl mbind.
  destruct (Z.leb_spec UART_BUF_LEN (Z.of_nat (length body))); [|lia].
  now rewrite Hwarn.
Qed.

Lemma uart_debug_warning_recursion_witness :
  let body := replicate 16 x41 in
  Forall (fun c => c <> x00) body
  /\ 16 <= 19 /\ 16 <= Z.of_nat (length body)
  /\ forall fuel, uart_debug fuel 16 (body ++ x00 :: []) = None.
Proof.
  intros body.
  assert (H1 : Forall (fun c => c <> x00) body)
    by (repeat constructor; discriminate).
  assert (H2 : 16 <= 19) by lia.
  assert (H3 : 16 <= Z.of_nat (length body)) by (simpl; lia).
  split; [exact H1|]. split; [exact H2|]. split; [exact H3|].
  exact (uart_debug_warning_recursion 16 body [] H1 H2 H3).
Defined.

(** ** The scratch array *)

Lemma memcpy_overrun dst doff src soff n :
  Z.of_nat (length dst) < doff + n -> memcpy dst doff src soff n = None.
Proof.
  intros H. unfold memcpy.
  destruct (Z.leb_spec (doff + n) (Z.of_nat (length dst))); [lia|].
  now rewrite Bool.andb_false_r.
Qed.

(** A read of no more than the unread bytes into a destination that is too
    small for them copies past the end of the destination. *)
Lemma ringbuf_read_overrun b dest n :
  rb_wf b -> 0 <= n <= rb_getused_m b -> Z.of_nat (length dest) < n ->
  ringbuf_read b dest n = None.
Proof.
  intros Hwf Hn Hsmall.
  pose proof (wf_len_range b Hwf) as Hlen.
  pose proof (wf_tail b Hwf) as Ht.
  pose proof (rb_getused_m_range b Hwf) as Hused.
  unfold ringbuf_read.
  destruct (Z.leb_spec (len b) n); [lia|].
  destruct (Z.ltb_spec (rb_getused_m b) n); [lia|].
  rewrite (u16_id (tail b + n)) by lia.
  destruct (Z.ltb_spec (tail b + n) (len b)).
  - rewrite memcpy_overrun by lia. reflexivity.
  - rewrite (u16_id (len b - tail b)) by lia.
    destruct (memcpy dest 0 (buffer b) (tail b) (len b - tail b))
      as [d1|] eqn:Hd1; [|reflexivity].
    apply memcpy_length in Hd1. simpl.
    rewrite (u16_id (n - (len b - tail b))) by lia.
    rewrite memcpy_overrun by lia. reflexivity.
Qed.

(** X19: when logging is stopped with more bytes unread than the scratch
    array holds, the closing pass asks [sd_write] for all of them and the
    copy out of the ring buffer runs past the end of the scratch array;
    draining a block, by contrast, never asks for more than the 512 bytes
    the array has. *)
Theorem close_on_stop_overruns_scratch (o : oracle) (s : sys) :
  rb_wf (sdbuf s) -> logger_running s = 0 -> file_open s <> 0 ->
  Z.of_nat (length (writebuf s)) < rb_getused_m (sdbuf s) ->
  ringbuf_read (sdbuf s) (writebuf s) (rb_getused_m (sdbuf s)) = None
  /\ close_on_stop o s = Undefined
  /\ sd_loop_body o s = Undefined.
Proof.
  intros Hwf Hstop Hopen Hbig.
  pose proof (rb_getused_m_range _ Hwf) as Hused.
  assert (Hr : ringbuf_read (sdbuf s) (writebuf s) (rb_getused_m (sdbuf s))
               = None) by (apply ringbuf_read_overrun; [assumption|lia|lia]).
  assert (Hc : close_on_stop o s = Undefined).
  { unfold close_on_stop, sd_write. rewrite Hstop, Hr.
    destruct (Z.eqb_spec (file_open s) 0); [contradiction|]. reflexivity. }
  split; [exact Hr|]. split; [exact Hc|].
  unfold sd_loop_body, open_on_start. rewrite Hstop. simpl.
  rewrite Hc. reflexivity.
Qed.

Lemma close_on_stop_overruns_scratch_witness :
  let s := mkSys (mkRingBuffer (replicate 1024 x2a) 520 0 1024 1023 0)
             (replicate 512 x00) 0 1 600 0 in
  let o := mkOracle [] 0 0 [0] 1 0 0 0 0 in
  rb_wf (sdbuf s) /\ logger_running s = 0 /\ file_open s <> 0
  /\ Z.of_nat (length (writebuf s)) < rb_getused_m (sdbuf s)
  /\ ringbuf_read (sdbuf s) (writebuf s) (rb_getused_m (sdbuf s)) = None
  /\ close_on_stop o s = Undefined
  /\ sd_loop_body o s = Undefined.
Proof.
  intros s o.
  assert (H1 : rb_wf (sdbuf s)).
  { constructor; simpl; try lia; try (rewrite length_replicate; reflexivity).
    exists 10. split; [lia|reflexivity]. }
  assert (H2 : logger_running s = 0) by reflexivity.
  assert (H3 : file_open s <> 0) by (vm_compute; discriminate).
  assert (H4 : Z.of_nat (length (writebuf s)) < rb_getused_m (sdbuf s))
    by (vm_compute; reflexivity).
  split; [exact H1|]. split; [exact H2|]. split; [exact H3|].
  split; [exact H4|].
  exact (close_on_stop_overruns_scratch o s H1 H2 H3 H4).
Defined.
